(** * cosmos-reason2-examples: response interpretation and batch evaluation

    A shallow embedding of [video_evaluator.py] and [cosmos_client.py].

    Text is modelled as a list of 8-bit characters, read as the code
    points 0 to 255 (ASCII and the Latin-1 supplement).  The character
    classes of Python's [re] module ([\s], [\w]), [str.upper],
    [str.lower] and [str.strip] follow Python's Unicode behaviour on
    these code points; [str.upper] gives a text, since the capital of
    one character can be two.  Code points above 255 are not
    represented.

    Regular expressions are run by a small backtracking matcher that
    follows the strategy of Python's [re] engine (leftmost match, greedy and
    lazy repetition tried in priority order), so that every pattern of the
    source appears below as a term that can be read against the source
    text.  The environment (subprocess, file system, HTTP service, clock)
    is a record of oracles threaded through the code. *)

From Stdlib Require Import Ascii String.
From Stdlib Require Import List Bool Arith Lia NArith ZArith QArith Permutation.
Import ListNotations.

Close Scope Q_scope.
Open Scope nat_scope.

Set Implicit Arguments.

(* ===================================================================== *)
(** * Text *)
(* ===================================================================== *)

Definition str := list ascii.

(** [L "abc"] is the text of a Python string literal. *)
Definition L (s : string) : str := list_ascii_of_string s.

Definition str_eqb (a b : str) : bool :=
  if list_eq_dec ascii_dec a b then true else false.

Module Char.

Definition code (c : ascii) : N := N_of_ascii c.

Definition between (lo hi : N) (c : ascii) : bool :=
  (N.leb lo (code c) && N.leb (code c) hi)%bool.

(** The characters of ASCII. *)
Definition is_ascii (c : ascii) : bool := N.ltb (code c) 128.

(** [str.isspace]: TAB, LF, VT, FF, CR, the four separators FS GS RS US,
    the blank, the next-line control (133) and the no-break space
    (160). *)
Definition is_space (c : ascii) : bool :=
  (between 9 13 c || between 28 32 c ||
   N.eqb (code c) 133 || N.eqb (code c) 160)%bool.

Definition is_upper (c : ascii) : bool := between 65 90 c.
Definition is_lower (c : ascii) : bool := between 97 122 c.
Definition is_digit (c : ascii) : bool := between 48 57 c.

(** The cased letters of the Latin-1 supplement: the capitals 192 to
    222 without the multiplication sign (215), and the small letters 224
    to 254 without the division sign (247). *)
Definition is_upper1 (c : ascii) : bool :=
  (between 192 222 c && negb (N.eqb (code c) 215))%bool.
Definition is_lower1 (c : ascii) : bool :=
  (between 224 254 c && negb (N.eqb (code c) 247))%bool.

(** The alphanumeric characters of the Latin-1 supplement: the two
    ordinal indicators (170, 186), the superscript digits (178, 179,
    185), the micro sign (181), the three fractions (188 to 190) and the
    letters 192 to 255 without the two signs. *)
Definition is_alnum1 (c : ascii) : bool :=
  (existsb (N.eqb (code c)) [170; 178; 179; 181; 185; 186; 188; 189; 190]%N ||
   (between 192 255 c &&
    negb (N.eqb (code c) 215) && negb (N.eqb (code c) 247)))%bool.

(** [\w]: letters, digits and the underscore. *)
Definition is_word (c : ascii) : bool :=
  (is_upper c || is_lower c || is_digit c || N.eqb (code c) 95 ||
   is_alnum1 c)%bool.

(** [.] under [re.DOTALL]. *)
Definition any (_ : ascii) : bool := true.

(** [c.upper()].  The sharp s (223) has the two-letter capital "SS".
    The capitals of the micro sign (181) and of the y with diaeresis
    (255) lie above code point 255; the two characters are left as they
    are, which differs from Python in no comparison with a character of
    this range. *)
Definition upper (c : ascii) : str :=
  if (is_lower c || is_lower1 c)%bool then [ascii_of_N (code c - 32)]
  else if N.eqb (code c) 223 then L "SS"
  else [c].

(** [c.lower()]. *)
Definition lower (c : ascii) : ascii :=
  if (is_upper c || is_upper1 c)%bool then ascii_of_N (code c + 32) else c.

(** Character comparison of the matcher; [ic] is [re.IGNORECASE]. *)
Definition same (ic : bool) (a b : ascii) : bool :=
  if ic then Ascii.eqb (lower a) (lower b) else Ascii.eqb a b.

End Char.

(** [s.upper()] and [s.lower()]. *)
Definition upper (s : str) : str := flat_map Char.upper s.
Definition lower (s : str) : str := map Char.lower s.

(** [s.strip()]: white space removed at both ends. *)
Fixpoint lstrip (s : str) : str :=
  match s with
  | c :: s' => if Char.is_space c then lstrip s' else s
  | [] => []
  end.

Definition rstrip (s : str) : str := rev (lstrip (rev s)).

Definition strip (s : str) : str := rstrip (lstrip s).

(** [s[a:b]] for [a <= b]. *)
Definition slice (a b : nat) (s : str) : str := firstn (b - a) (skipn a s).

(** [starts_with p s]: [s.startswith(p)]. *)
Fixpoint starts_with (p s : str) : bool :=
  match p, s with
  | [], _ => true
  | a :: p', b :: s' => (Ascii.eqb a b && starts_with p' s')%bool
  | _ :: _, [] => false
  end.

(** [p in s] for two Python strings: [p] occurs in [s] as a substring. *)
Fixpoint str_in (p s : str) : bool :=
  (starts_with p s ||
   match s with
   | [] => false
   | _ :: s' => str_in p s'
   end)%bool.

(* ===================================================================== *)
(** * A backtracking matcher for the patterns of the source *)
(* ===================================================================== *)

Module Re.

(** The fragment of Python's pattern language that the source uses.
    [(?: ... )] only groups and needs no constructor of its own. *)
Inductive regex : Type :=
| Lit (l : str)                    (* literal text *)
| StarG (p : ascii -> bool)        (* [c*]  for a character class c *)
| PlusG (p : ascii -> bool)        (* [c+] *)
| StarL (p : ascii -> bool)        (* [c*?] *)
| Group (r : regex)                (* [( r )], capturing group 1 *)
| Seq (r1 r2 : regex)
| Alt (r1 r2 : regex)              (* [r1|r2] *)
| Eos.                             (* [$] without re.MULTILINE *)

(** Span of capturing group 1, as positions in the searched text. *)
Definition capture := option (nat * nat).

(** Consume the literal [l] at the head of [s]. *)
Fixpoint eat (ic : bool) (l s : str) : option str :=
  match l, s with
  | [], _ => Some s
  | a :: l', b :: s' => if Char.same ic a b then eat ic l' s' else None
  | _ :: _, [] => None
  end.

Section Run.
Variable ic : bool.
Variable T : Type.

(** What is left of the pattern, as a function of the rest of the
    input, the position reached and the capture so far. *)
Definition cont := str -> nat -> capture -> option T.

(** Greedy repetition: take the character if possible and come back
    to the shorter repetition only when the rest fails. *)
Fixpoint star_greedy (p : ascii -> bool) (s : str) (pos : nat)
         (cap : capture) (k : cont) : option T :=
  match s with
  | c :: s' =>
      if p c then
        match star_greedy p s' (S pos) cap k with
        | Some x => Some x
        | None => k s pos cap
        end
      else k s pos cap
  | [] => k s pos cap
  end.

(** Lazy repetition: try the rest first and take one more character
    only when it fails. *)
Fixpoint star_lazy (p : ascii -> bool) (s : str) (pos : nat)
         (cap : capture) (k : cont) : option T :=
  match k s pos cap with
  | Some x => Some x
  | None =>
      match s with
      | c :: s' => if p c then star_lazy p s' (S pos) cap k else None
      | [] => None
      end
  end.

Fixpoint run (r : regex) (s : str) (pos : nat) (cap : capture)
         (k : cont) : option T :=
  match r with
  | Lit l =>
      match eat ic l s with
      | Some s' => k s' (pos + length l) cap
      | None => None
      end
  | StarG p => star_greedy p s pos cap k
  | PlusG p =>
      match s with
      | c :: s' => if p c then star_greedy p s' (S pos) cap k else None
      | [] => None
      end
  | StarL p => star_lazy p s pos cap k
  | Group r1 =>
      run r1 s pos cap (fun s' pos' _ => k s' pos' (Some (pos, pos')))
  | Seq r1 r2 =>
      run r1 s pos cap (fun s' pos' cap' => run r2 s' pos' cap' k)
  | Alt r1 r2 =>
      match run r1 s pos cap k with
      | Some x => Some x
      | None => run r2 s pos cap k
      end
  | Eos =>
      (* end of the text, or just before a newline that ends it *)
      match s with
      | [] => k s pos cap
      | [c] => if Ascii.eqb c "010"%char then k s pos cap else None
      | _ => None
      end
  end.
End Run.

(** A match object: where the match starts and ends, and group 1. *)
Record match_object : Type := MatchObject
  { m_start : nat; m_end : nat; m_group1 : capture }.

Definition match_at (ic : bool) (r : regex) (s : str) (pos : nat)
  : option match_object :=
  run ic r s pos None (fun _ e cap => Some (MatchObject pos e cap)).

(** The scan of [re.search]: the first position, from the left, at
    which the pattern matches. [s] is the text from [pos] on. *)
Fixpoint search_from (ic : bool) (r : regex) (s : str) (pos : nat)
  : option match_object :=
  match match_at ic r s pos with
  | Some m => Some m
  | None =>
      match s with
      | [] => None
      | _ :: s' => search_from ic r s' (S pos)
      end
  end.

(** [re.search(r, s, flags)]. *)
Definition search (ic : bool) (r : regex) (s : str) : option match_object :=
  search_from ic r s 0.

(** [m.group(1)] for a match [m] in the text [s].  Group 1 takes part in
    every match of the patterns below. *)
Definition group1 (s : str) (m : match_object) : str :=
  match m_group1 m with
  | Some (a, b) => slice a b s
  | None => []
  end.

End Re.

(* ===================================================================== *)
(** * Effects: a log of what the program does to the outside world *)
(* ===================================================================== *)

Module IO.

Section Log.
(** [E] is the type of observable events of one program. *)
Variable E : Type.

Definition io (A : Type) : Type := A * list E.

Definition ret {A} (a : A) : io A := (a, []).

Definition bind {A B} (m : io A) (f : A -> io B) : io B :=
  let '(a, t1) := m in
  let '(b, t2) := f a in
  (b, t1 ++ t2).

Definition emit (e : E) : io unit := (tt, [e]).

Definition value {A} (m : io A) : A := fst m.
Definition log {A} (m : io A) : list E := snd m.
End Log.

Arguments ret {E A} a.
Arguments bind {E A B} m f.
Arguments emit {E} e.
Arguments value {E A} m.
Arguments log {E A} m.

Declare Scope io_scope.
Delimit Scope io_scope with io.
Notation "x <- m ;; k" := (bind m (fun x => k))
  (at level 61, m at next level, right associativity) : io_scope.
Notation "m ;; k" := (bind m (fun _ => k))
  (at level 61, right associativity) : io_scope.

End IO.

(* ===================================================================== *)
(** * video_evaluator.py *)
(* ===================================================================== *)

Module VideoEvaluator.
Import Re.

(** [r'Assistant:\s*(\w+)'] *)
Definition assistant_re : regex :=
  Seq (Lit (L "Assistant:"))
      (Seq (StarG Char.is_space) (Group (PlusG Char.is_word))).

(** [r'Reasoning:\s*(.*?)(?:--------------------\s*Assistant:|$)'],
    compiled with [re.DOTALL]. *)
Definition reasoning_re : regex :=
  Seq (Lit (L "Reasoning:"))
      (Seq (StarG Char.is_space)
           (Seq (Group (StarL Char.any))
                (Alt (Seq (Lit (L "--------------------"))
                          (Seq (StarG Char.is_space) (Lit (L "Assistant:"))))
                     Eos))).

(** The command line of one job. *)
Definition inference_cmd (video_path : str) : list str :=
  [ L "cosmos-reason2-inference"; L "online";
    L "--port"; L "8000";
    L "--prompt";
    L "Does this video conform to real world physics? Analyze the motion, interactions, and physical behaviors shown. Point out any violations of physical laws or unrealistic elements.";
    L "--reasoning";
    L "--videos"; video_path;
    L "--fps"; L "4" ].

(** Lines 23 to 48 of [evaluate_video]: what is made of the captured
    standard output.  The result is
    [(verdict, output, answer, reasoning)]. *)
Definition interpret (output : str) : str * str * str * str :=
  let assistant_match := search false assistant_re output in
  let reasoning_match := search false reasoning_re output in
  let '(answer, answer_upper) :=
    match assistant_match with
    | Some m =>
        let answer := strip (group1 output m) in
        (answer, upper answer)
    | None => (L "UNKNOWN", L "UNKNOWN")
    end in
  let reasoning :=
    match reasoning_match with
    | Some m => strip (group1 output m)
    | None => L "N/A"
    end in
  let verdict :=
    if str_in (L "YES") answer_upper then L "PASS"
    else if str_in (L "NO") answer_upper then L "FAIL"
    else L "UNCLEAR" in
  (verdict, output, answer, reasoning).

(** [evaluate_video]: [subprocess_run cmd] is the standard output that
    [subprocess.run(cmd, capture_output=True, text=True)] captures. *)
Definition evaluate_video (subprocess_run : list str -> str)
           (video_path : str) : str * str * str * str :=
  let cmd := inference_cmd video_path in
  let output := subprocess_run cmd in
  interpret output.

Definition verdict_of (r : str * str * str * str) : str :=
  let '(v, _, _, _) := r in v.
Definition answer_of (r : str * str * str * str) : str :=
  let '(_, _, a, _) := r in a.
Definition reasoning_of (r : str * str * str * str) : str :=
  let '(_, _, _, x) := r in x.


(** ** [batch_evaluate] *)

(** One row of the result table (a dict of the source). *)
Record record : Type := Record_
  { video : str;
    video_path : str;
    verdict : str;
    answer : str;
    reasoning : str;
    timestamp : str }.

(** The environment of a batch run. *)
Record env : Type := Env
  { glob_mp4 : str -> list str;         (* [list(folder.glob("*.mp4"))] *)
    path_name : str -> str;             (* [Path.name] *)
    path_join : str -> str -> str;      (* [folder / name] *)
    subprocess_run : list str -> str;   (* captured standard output *)
    now_isoformat : nat -> str;         (* the clock when job [i] ends *)
    now_strftime : str }.               (* the clock when the table is saved *)

(** The three summary lines: a count and [count/total*100], which the
    source prints with one decimal. *)
Record summary : Type := Summary
  { total : Z;
    passed : Z; failed : Z; unclear : Z;
    passed_pct : Q; failed_pct : Q; unclear_pct : Q }.

Inductive message : Type :=
| NoMp4Found (folder : str)
| Processing (n : nat) (folder : str)
| OutputWillBeSaved (folder : str)
| Evaluating (i n : nat) (name : str)
| ShowAnswer (a : str)
| ShowVerdict (v : str)
| ShowReasoning (r : str)
| ShowSummary (s : summary)
| ListPassed (names : list str)
| ListFailed (names : list str)
| ListUnclear (names : list str)
| ResultsSaved (file : str)
| EvaluationComplete.

Inductive event : Type :=
| Print (m : message)
| Mkdir (folder : str)
| ToCsv (file : str) (rows : list record).

Import IO.
Local Open Scope io_scope.

(** [(df['verdict'] == v).sum()] *)
Definition count_verdict (v : str) (df : list record) : Z :=
  Z.of_nat (length (filter (fun r => str_eqb (verdict r) v) df)).

(** [count/total*100] *)
Definition percent (count total : Z) : Q :=
  (inject_Z count / inject_Z total * inject_Z 100)%Q.

(** Lines 105 to 113. *)
Definition summarize (df : list record) : summary :=
  let total := Z.of_nat (length df) in
  let passed := count_verdict (L "PASS") df in
  let failed := count_verdict (L "FAIL") df in
  let unclear := count_verdict (L "UNCLEAR") df in
  Summary total passed failed unclear
          (percent passed total) (percent failed total)
          (percent unclear total).

(** [df[df['verdict'] == v]], the names of its rows. *)
Definition names_with (v : str) (df : list record) : list str :=
  map video (filter (fun r => str_eqb (verdict r) v) df).

(** The loop of lines 72 to 91, for the videos from index [i] on;
    [n] is [len(videos)].  The rows are returned in the order in which
    they are appended. *)
Fixpoint evaluate_all (w : env) (verbose : bool) (n i : nat)
         (videos : list str) : io event (list record) :=
  match videos with
  | [] => ret []
  | v :: rest =>
      emit (Print (Evaluating i n (path_name w v))) ;;
      let '(verdict, full_output, answer, reasoning) :=
        evaluate_video (subprocess_run w) v in
      let row := Record_ (path_name w v) v verdict answer reasoning
                         (now_isoformat w i) in
      emit (Print (ShowAnswer answer)) ;;
      emit (Print (ShowVerdict verdict)) ;;
      (if verbose then emit (Print (ShowReasoning (firstn 200 reasoning)))
       else ret tt) ;;
      rows <- evaluate_all w verbose n (S i) rest ;;
      ret (row :: rows)
  end.

Definition batch_evaluate (w : env) (video_folder : str)
           (output_folder : option str) (verbose : bool)
  : io event (option (list record)) :=
  output_folder <-
    match output_folder with
    | None => ret video_folder
    | Some o => emit (Mkdir o) ;; ret o
    end ;;
  let videos := glob_mp4 w video_folder in
  match videos with
  | [] =>
      emit (Print (NoMp4Found video_folder)) ;;
      ret None
  | _ :: _ =>
      emit (Print (Processing (length videos) video_folder)) ;;
      emit (Print (OutputWillBeSaved output_folder)) ;;
      df <- evaluate_all w verbose (length videos) 1 videos ;;
      let output_file :=
        path_join w output_folder
                  (L "evaluation_" ++ now_strftime w ++ L ".csv") in
      emit (ToCsv output_file df) ;;
      let s := summarize df in
      emit (Print (ShowSummary s)) ;;
      emit (Print (ListPassed (names_with (L "PASS") df))) ;;
      emit (Print (ListFailed (names_with (L "FAIL") df))) ;;
      (if (0 <? unclear s)%Z
       then emit (Print (ListUnclear (names_with (L "UNCLEAR") df)))
       else ret tt) ;;
      emit (Print (ResultsSaved output_file)) ;;
      ret (Some df)
  end.

(** The command line after [parser.parse_args()]. *)
Record arguments : Type := Arguments_
  { input_folder : str;
    output_folder : option str;
    verbose : bool;
    port : Z }.

(** [main], from line 175 on; the value is the exit status of the
    process, which ends by running off the end of [main]. *)
Definition main (w : env) (args : arguments) : io event Z :=
  df <- batch_evaluate w (input_folder args) (output_folder args)
                       (verbose args) ;;
  match df with
  | Some _ => emit (Print EvaluationComplete)
  | None => ret tt
  end ;;
  ret 0%Z.

End VideoEvaluator.

(* ===================================================================== *)
(** * cosmos_client.py *)
(* ===================================================================== *)

Module CosmosClient.
Import Re.
Import IO.
Local Open Scope io_scope.

Definition WORKSTATION_IP : str := L "10.0.0.46".
Definition API_URL : str :=
  L "http://" ++ WORKSTATION_IP ++ L ":8000/v1/chat/completions".

Definition VIDEO_EXTENSIONS : list str :=
  [L ".mp4"; L ".avi"; L ".mov"; L ".mkv"; L ".webm"].
Definition IMAGE_EXTENSIONS : list str :=
  [L ".jpg"; L ".jpeg"; L ".png"; L ".webp"; L ".gif"].

(** [x in xs] for a list of strings. *)
Definition mem (x : str) (xs : list str) : bool := existsb (str_eqb x) xs.

(** Truth value of an optional string: [None] and [''] are false. *)
Definition truthy (x : option str) : bool :=
  match x with
  | Some (_ :: _) => true
  | _ => false
  end.

(** ** [parse_reasoning] *)

(** [r'<think>(.*?)</think>'] and [r'<answer>(.*?)</answer>']; both are
    searched with [re.DOTALL | re.IGNORECASE]. *)
Definition think_re : regex :=
  Seq (Lit (L "<think>")) (Seq (Group (StarL Char.any)) (Lit (L "</think>"))).
Definition answer_re : regex :=
  Seq (Lit (L "<answer>")) (Seq (Group (StarL Char.any)) (Lit (L "</answer>"))).

(** The result is [(thinking, answer, has_sections)]. *)
Definition parse_reasoning (content : str) : option str * str * bool :=
  let think_match := search true think_re content in
  let answer_match := search true answer_re content in
  match think_match, answer_match with
  | Some tm, Some am =>
      let thinking := strip (group1 content tm) in
      let answer := strip (group1 content am) in
      (Some thinking, answer, true)
  | _, _ => (None, strip content, false)
  end.

(** ** The outside world *)

Inductive media : Type := video | image.

(** The body of the chat-completion request. *)
Record request : Type := Request
  { model : str;
    system_prompt : str;
    content_type : str;        (* "video_url" or "image_url" *)
    content_url : str;         (* the inline payload *)
    user_prompt : option str;  (* [None]: a YAML [null] *)
    max_tokens : Z;
    temperature : Q }.

(** What the [try] block of the request ends in: one of the exceptions
    that the source tells apart, any other exception (among them a reply
    whose content is not a string), or the content of the reply. *)
Inductive response : Type :=
| RaiseConnectionError
| RaiseTimeout
| RaiseHTTPError
| RaiseKeyError
| RaiseOther
| Content (c : str).

(** A loaded YAML mapping: keys with a string value or [null]. *)
Definition yaml := list (str * option str).

Record env : Type := Env
  { path_exists : str -> bool;              (* [Path.exists] *)
    path_suffix : str -> str;               (* [Path.suffix] *)
    path_name : str -> str;                 (* [Path.name] *)
    read_bytes : str -> option (list ascii);(* [None]: the read raises *)
    b64encode : list ascii -> str;
    yaml_safe_load : str -> option yaml;    (* [None]: the [try] raises *)
    requests_post : str -> request -> response;
    models_get : option (list str) }.       (* [None]: the check raises *)

Inductive message : Type :=
| ErrFileNotFound (path : str)
| ProcessingVideo (name : str)
| ProcessingImage (name : str)
| ErrUnsupported (ext : str)
| Encoding
| FileSize (bytes : nat)
| ErrReading
| ErrYaml
| LoadingPrompt (file : str)
| Sending
| UsingYamlPrompt (file : str)
| ShowPrompt (p : option str)
| ShowReasoningAndAnswer (thinking answer : str)
| ShowResult (answer : str)
| ErrConnection
| ErrTimeout
| ErrHTTP
| ErrParsing
| ErrOther
| Testing
| Connected (models : list str)
| ConnectionFailed
| Usage
| ErrPromptFileArg
| ErrNoFile.

Inductive event : Type :=
| Print (m : message)
| Post (url : str) (r : request)
| Get (url : str).

(** [dict.get(key, default)] *)
Fixpoint dict_get (d : yaml) (key : str) (default : option str)
  : option str :=
  match d with
  | [] => default
  | (k, v) :: d' => if str_eqb k key then v else dict_get d' key default
  end.

(** ** [load_yaml_prompt] *)
Definition load_yaml_prompt (w : env) (yaml_path : str)
  : io event (option str * option str) :=
  match yaml_safe_load w yaml_path with
  | Some data =>
      let system_prompt :=
        dict_get data (L "system_prompt")
                 (Some (L "You are a helpful assistant.")) in
      let user_prompt := dict_get data (L "user_prompt") (Some []) in
      ret (system_prompt, user_prompt)
  | None =>
      emit (Print ErrYaml) ;;
      ret (None, None)
  end.

(** ** [display_result] *)
Definition display_result (content : str) (show_reasoning : bool)
  : io event unit :=
  let '(thinking, answer, has_sections) := parse_reasoning content in
  match thinking with
  | Some t =>
      if (has_sections && show_reasoning)%bool
      then emit (Print (ShowReasoningAndAnswer t answer))
      else emit (Print (ShowResult answer))
  | None => emit (Print (ShowResult answer))
  end.

(** ** [process_file] *)

Definition mime_map : list (str * str) :=
  [ (L ".jpg", L "image/jpeg");
    (L ".jpeg", L "image/jpeg");
    (L ".png", L "image/png");
    (L ".webp", L "image/webp");
    (L ".gif", L "image/gif") ].

Fixpoint mime_get (m : list (str * str)) (ext default : str) : str :=
  match m with
  | [] => default
  | (k, v) :: m' => if str_eqb k ext then v else mime_get m' ext default
  end.

(** Lines 148 to 198: build the request, send it, show the reply. *)
Definition send_request (w : env) (content_type content_url : str)
           (system_prompt : str) (user_prompt : option str)
           (yaml_file : option str) (show_reasoning : bool)
  : io event (option str) :=
  let request_data :=
    Request (L "nvidia/Cosmos-Reason2-2B") system_prompt
            content_type content_url user_prompt 4096 (7 # 10) in
  emit (Print Sending) ;;
  match yaml_file with
  | Some (c :: f) => emit (Print (UsingYamlPrompt (c :: f)))
  | _ => emit (Print (ShowPrompt user_prompt))
  end ;;
  emit (Post API_URL request_data) ;;
  match requests_post w API_URL request_data with
  | Content content =>
      display_result content show_reasoning ;;
      ret (Some content)
  | RaiseConnectionError => emit (Print ErrConnection) ;; ret None
  | RaiseTimeout => emit (Print ErrTimeout) ;; ret None
  | RaiseHTTPError => emit (Print ErrHTTP) ;; ret None
  | RaiseKeyError => emit (Print ErrParsing) ;; ret None
  | RaiseOther => emit (Print ErrOther) ;; ret None
  end.

(** Lines 105 to 146: read and encode the file, choose the prompts. *)
Definition encode_and_send (w : env) (file_path ext : str)
           (file_type : media) (default_prompt : str)
           (prompt yaml_file : option str) (show_reasoning : bool)
  : io event (option str) :=
  emit (Print Encoding) ;;
  match read_bytes w file_path with
  | None => emit (Print ErrReading) ;; ret None
  | Some file_data =>
      emit (Print (FileSize (length file_data))) ;;
      let data_b64 := b64encode w file_data in
      let '(content_type, content_url) :=
        match file_type with
        | video =>
            (L "video_url", L "data:video/mp4;base64," ++ data_b64)
        | image =>
            let mime_type := mime_get mime_map ext (L "image/jpeg") in
            (L "image_url",
             L "data:" ++ mime_type ++ L ";base64," ++ data_b64)
        end in
      match yaml_file with
      | Some (c :: f) =>
          emit (Print (LoadingPrompt (c :: f))) ;;
          prompts <- load_yaml_prompt w (c :: f) ;;
          match prompts with
          | (None, _) => ret None
          | (Some system_prompt, user_prompt) =>
              send_request w content_type content_url system_prompt
                           user_prompt yaml_file show_reasoning
          end
      | _ =>
          let system_prompt :=
            L "You are a helpful assistant that analyzes images and videos." in
          let user_prompt :=
            match prompt with
            | Some (c :: p) => c :: p
            | _ => default_prompt
            end in
          send_request w content_type content_url system_prompt
                       (Some user_prompt) yaml_file show_reasoning
      end
  end.

Definition process_file (w : env) (file_path : str)
           (prompt yaml_file : option str) (show_reasoning : bool)
  : io event (option str) :=
  if negb (path_exists w file_path) then
    emit (Print (ErrFileNotFound file_path)) ;;
    ret None
  else
    let ext := lower (path_suffix w file_path) in
    if mem ext VIDEO_EXTENSIONS then
      emit (Print (ProcessingVideo (path_name w file_path))) ;;
      encode_and_send w file_path ext video
                      (L "Caption this video in detail.")
                      prompt yaml_file show_reasoning
    else if mem ext IMAGE_EXTENSIONS then
      emit (Print (ProcessingImage (path_name w file_path))) ;;
      encode_and_send w file_path ext image
                      (L "Describe this image in detail.")
                      prompt yaml_file show_reasoning
    else
      emit (Print (ErrUnsupported ext)) ;;
      ret None.

(** ** [test_connection] *)
Definition test_connection (w : env) : io event bool :=
  emit (Print Testing) ;;
  emit (Get (L "http://" ++ WORKSTATION_IP ++ L ":8000/v1/models")) ;;
  match models_get w with
  | Some models => emit (Print (Connected models)) ;; ret true
  | None => emit (Print ConnectionFailed) ;; ret false
  end.

(** ** [main] *)

(** [args.index(x)] for an [x] that occurs in [args]. *)
Fixpoint index (x : str) (args : list str) : nat :=
  match args with
  | [] => 0
  | a :: args' => if str_eqb a x then 0 else S (index x args')
  end.

(** [' '.join(xs)] *)
Fixpoint join_spaces (xs : list str) : str :=
  match xs with
  | [] => []
  | [x] => x
  | x :: xs' => x ++ L " " ++ join_spaces xs'
  end.

(** Lines 261 to 275, once the flags are taken out of [args]. *)
Definition run_file (w : env) (args : list str) (yaml_file : option str)
           (show_reasoning : bool) : io event Z :=
  match args with
  | [] =>
      emit (Print ErrNoFile) ;;
      emit (Print Usage) ;;
      ret 1%Z
  | file_path :: rest =>
      let custom_prompt :=
        if (Nat.ltb 1 (length args) && negb (truthy yaml_file))%bool
        then Some (join_spaces rest) else None in
      result <- process_file w file_path custom_prompt yaml_file
                             show_reasoning ;;
      match result with
      | None => ret 1%Z
      | Some _ => ret 0%Z
      end
  end.

(** [main]; [argv] is [sys.argv] and the value is the status given to
    [sys.exit]. *)
Definition main (w : env) (argv : list str) : io event Z :=
  match argv with
  | [] | [_] =>
      emit (Print Usage) ;;
      ret 1%Z
  | _ :: argv1 :: _ =>
      if mem argv1 [L "-h"; L "--help"; L "help"] then
        emit (Print Usage) ;;
        ret 0%Z
      else if mem argv1 [L "test"; L "--test"] then
        test_connection w ;;
        ret 0%Z
      else
        let show_reasoning := negb (mem (L "--no-reasoning") argv) in
        let args :=
          filter (fun arg => negb (str_eqb arg (L "--no-reasoning")))
                 (tl argv) in
        if mem (L "--prompt-file") args then
          let idx := index (L "--prompt-file") args in
          if Nat.ltb (idx + 1) (length args) then
            let yaml_file := nth (idx + 1) args [] in
            let args := firstn idx args ++ skipn (idx + 2) args in
            run_file w args (Some yaml_file) show_reasoning
          else
            emit (Print ErrPromptFileArg) ;;
            ret 1%Z
        else
          run_file w args None show_reasoning
  end.

End CosmosClient.

(* ===================================================================== *)
(** * Vocabulary of the specification *)
(* ===================================================================== *)

Module Spec.

(** ** Texts *)

(** Two texts are equal up to the case of their letters. *)
Definition ci_eq (a b : str) : Prop := lower a = lower b.

(** [p] occurs in [s], exactly. *)
Definition occurs (p s : str) : Prop :=
  exists pre post, s = pre ++ p ++ post.

(** [p] occurs in [s] up to the case of the letters. *)
Definition ci_occurs (p s : str) : Prop :=
  exists pre mid post, s = pre ++ mid ++ post /\ ci_eq mid p.

(** The texts that [str.upper] leaves as they are, character by
    character. *)
Definition capitals (p : str) : Prop :=
  Forall (fun a => Char.upper a = [a]) p.

(** The case-insensitive substring test, as a function. *)
Definition ci_contains (p s : str) : bool := str_in (lower p) (lower s).

(** [s] begins with [p] up to the case of the letters. *)
Definition ci_starts_with (p s : str) : bool :=
  starts_with (lower p) (lower s).

(** Index of the first occurrence of [p] in [s], counted from [i]. *)
Fixpoint find_from (p s : str) (i : nat) : option nat :=
  if starts_with p s then Some i
  else match s with
       | [] => None
       | _ :: s' => find_from p s' (S i)
       end.

Definition find (p s : str) : option nat := find_from p s 0.

(** The same up to the case of the letters. *)
Definition ci_find (p s : str) : option nat := find (lower p) (lower s).

Fixpoint take_while (p : ascii -> bool) (s : str) : str :=
  match s with
  | c :: s' => if p c then c :: take_while p s' else []
  | [] => []
  end.

Fixpoint drop_while (p : ascii -> bool) (s : str) : str :=
  match s with
  | c :: s' => if p c then drop_while p s' else s
  | [] => []
  end.

(** The 256 characters. *)
Definition all_ascii : list ascii := map ascii_of_nat (seq 0 256).

(** ** Scanning a text from the left *)

(** The first suffix of [s], from the left, on which [f] succeeds;
    [pos] is the position of [s] in the whole text. *)
Fixpoint first_success {T : Type} (f : str -> nat -> option T)
         (s : str) (pos : nat) : option T :=
  match f s pos with
  | Some x => Some x
  | None =>
      match s with
      | [] => None
      | _ :: s' => first_success f s' (S pos)
      end
  end.

(** The position, when the text there satisfies [A]. *)
Definition guard (A : str -> bool) : str -> nat -> option nat :=
  fun s' p => if A s' then Some p else None.

(** ** The answer of a transcript *)

(** The first maximal run of word characters of [s]. *)
Definition first_word_run (s : str) : str :=
  take_while Char.is_word (drop_while (fun c => negb (Char.is_word c)) s).

(** What follows the first occurrence of the marker [m] in [s]. *)
Definition after_first (m s : str) : str :=
  match find m s with
  | Some i => skipn (i + length m) s
  | None => []
  end.

(** [s] begins with the marker "Assistant:", optional white space and
    a word character. *)
Definition answer_follows (s : str) : bool :=
  (starts_with (L "Assistant:") s &&
   match drop_while Char.is_space (skipn 10 s) with
   | c :: _ => Char.is_word c
   | [] => false
   end)%bool.

(** Position of the first "Assistant:" marker of [s] that is followed
    by optional white space and a word character. *)
Definition find_answer (s : str) : option nat :=
  first_success (guard answer_follows) s 0.

(** The answer of a transcript: the run of word characters that
    follows that marker and its white space, and the sentinel when there
    is no such marker. *)
Definition answer_token (output : str) : str :=
  match find_answer output with
  | Some i =>
      take_while Char.is_word
                 (drop_while Char.is_space (skipn (i + 10) output))
  | None => L "UNKNOWN"
  end.

(** The three values a verdict can take. *)
Definition is_verdict (v : str) : Prop :=
  v = L "PASS" \/ v = L "FAIL" \/ v = L "UNCLEAR".

(** ** The sections of a reply *)

(** The text [s] has a section: an opening marker and, somewhere after
    it, a closing marker, both up to case. *)
Definition has_section (opening closing s : str) : Prop :=
  exists pre o body c post,
    s = pre ++ o ++ body ++ c ++ post /\ ci_eq o opening /\ ci_eq c closing.

(** [body] is the text of the section of [s]: what lies between the
    leftmost opening marker and the first closing marker after it. *)
Definition section_text (opening closing s body : str) : Prop :=
  exists pre o c post,
    s = pre ++ o ++ body ++ c ++ post /\ ci_eq o opening /\ ci_eq c closing /\
    ci_find opening s = Some (length pre) /\
    ci_find closing (body ++ c ++ post) = Some (length body).

(** The same text, computed. *)
Definition first_section (opening closing s : str) : option str :=
  match ci_find opening s with
  | None => None
  | Some i =>
      let rest := skipn (i + length opening) s in
      match ci_find closing rest with
      | None => None
      | Some j => Some (firstn j rest)
      end
  end.

(** [body] is enclosed in [s] by the two markers and holds neither of
    them. *)
Definition encloses (opening closing s body : str) : Prop :=
  exists pre o c post,
    s = pre ++ o ++ body ++ c ++ post /\ ci_eq o opening /\ ci_eq c closing /\
    ci_contains opening body = false /\ ci_contains closing body = false.

(** The pattern of a section between two markers,
    [opening(.*?)closing]. *)
Definition section_re (opening closing : str) : Re.regex :=
  Re.Seq (Re.Lit opening)
         (Re.Seq (Re.Group (Re.StarL Char.any)) (Re.Lit closing)).

(** ** The runs of the single-shot client *)

(** The messages by which the single-shot client reports that the run
    failed, and those by which it shows a reply. *)
Definition is_failure (m : CosmosClient.message) : bool :=
  match m with
  | CosmosClient.ErrFileNotFound _ | CosmosClient.ErrUnsupported _
  | CosmosClient.ErrReading | CosmosClient.ErrYaml
  | CosmosClient.ErrConnection | CosmosClient.ErrTimeout
  | CosmosClient.ErrHTTP | CosmosClient.ErrParsing
  | CosmosClient.ErrOther | CosmosClient.ConnectionFailed
  | CosmosClient.ErrPromptFileArg | CosmosClient.ErrNoFile => true
  | _ => false
  end.

Definition is_result (m : CosmosClient.message) : bool :=
  match m with
  | CosmosClient.ShowReasoningAndAnswer _ _ | CosmosClient.ShowResult _ => true
  | _ => false
  end.

(** The service did not answer the request with a content. *)
Definition unanswered (w : CosmosClient.env) (req : CosmosClient.request)
  : Prop :=
  forall c, CosmosClient.requests_post w CosmosClient.API_URL req
            <> CosmosClient.Content c.

(** The facts that tie the exit status of a run to its log. *)
Definition status_follows_log (w : CosmosClient.env)
           (r : IO.io CosmosClient.event Z) : Prop :=
  (IO.value r = 0 \/ IO.value r = 1)%Z /\
  (forall m, In (CosmosClient.Print m) (IO.log r) ->
             is_failure m = true -> IO.value r = 1%Z) /\
  (forall req, In (CosmosClient.Post CosmosClient.API_URL req) (IO.log r) ->
               unanswered w req -> IO.value r = 1%Z) /\
  (forall m, In (CosmosClient.Print m) (IO.log r) ->
             is_result m = true -> IO.value r = 0%Z).

(** The words that, first on the command line, ask for the usage text,
    and those that ask for the connection test. *)
Definition help_words : list str := [L "-h"; L "--help"; L "help"].
Definition test_words : list str := [L "test"; L "--test"].

(** The first argument of the command line is one of [words]. *)
Definition asks_for (words : list str) (argv : list str) : bool :=
  match nth_error argv 1 with
  | Some argv1 => CosmosClient.mem argv1 words
  | None => false
  end.

(** The request carries the bytes [data], encoded, as a video or as an
    image of some type. *)
Definition carries (w : CosmosClient.env) (req : CosmosClient.request)
           (data : list ascii) : Prop :=
  CosmosClient.content_url req
  = L "data:video/mp4;base64," ++ CosmosClient.b64encode w data \/
  exists mime_type,
    CosmosClient.content_url req
    = L "data:" ++ mime_type ++ L ";base64," ++ CosmosClient.b64encode w data.

(** Processing [file_path] gave the reply [c]: the file is there, its
    bytes were read, the request that carries them is in the log, the
    service answered that request with [c], and the reply was shown. *)
Definition replied (w : CosmosClient.env) (file_path : str)
           (r : IO.io CosmosClient.event (option str)) (c : str) : Prop :=
  IO.value r = Some c /\
  CosmosClient.path_exists w file_path = true /\
  exists data req,
    CosmosClient.read_bytes w file_path = Some data /\
    In (CosmosClient.Post CosmosClient.API_URL req) (IO.log r) /\
    carries w req data /\
    CosmosClient.requests_post w CosmosClient.API_URL req
    = CosmosClient.Content c /\
    exists m, In (CosmosClient.Print m) (IO.log r) /\ is_result m = true.

(** The run [r] is the processing of one of the [words], a file, and
    that processing gave a reply. *)
Definition processed (w : CosmosClient.env) (words : list str)
           (r : IO.io CosmosClient.event Z) : Prop :=
  exists file_path prompt yaml_file show c,
    In file_path words /\
    IO.log r
    = IO.log (CosmosClient.process_file w file_path prompt yaml_file show) /\
    replied w file_path
            (CosmosClient.process_file w file_path prompt yaml_file show) c.

End Spec.

(* ===================================================================== *)
(** * Sample environments *)
(* ===================================================================== *)

Module Samples.

(** A batch folder with three videos: the first job answers YES, the
    second NO, and the third prints nothing. *)
Definition three_videos : VideoEvaluator.env :=
  VideoEvaluator.Env
    (fun _ => [L "in/a.mp4"; L "in/b.mp4"; L "in/c.mp4"])
    (fun p => skipn 3 p)
    (fun d f => d ++ L "/" ++ f)
    (fun cmd =>
       if str_eqb (nth 8 cmd []) (L "in/a.mp4") then L "Assistant: YES"
       else if str_eqb (nth 8 cmd []) (L "in/b.mp4") then L "Assistant: NO"
       else [])
    (fun _ => L "2025-01-01T00:00:00")
    (L "20250101_000000").

(** A folder without videos. *)
Definition no_videos : VideoEvaluator.env :=
  VideoEvaluator.Env
    (fun _ => [])
    (fun p => p)
    (fun d f => d ++ L "/" ++ f)
    (fun _ => [])
    (fun _ => L "2025-01-01T00:00:00")
    (L "20250101_000000").

Definition batch_args : VideoEvaluator.arguments :=
  VideoEvaluator.Arguments_ (L "in") None false 8000.

(** The suffix of a path without directories: from its last dot on. *)
Fixpoint suffix_of (p : str) : str :=
  match p with
  | [] => []
  | c :: p' =>
      match suffix_of p' with
      | [] => if Ascii.eqb c "."%char then c :: p' else []
      | x => x
      end
  end.

(** A world where every file exists and holds three bytes, and the
    service answers with a think section and an answer section. *)
Definition answering : CosmosClient.env :=
  CosmosClient.Env
    (fun _ => true)
    suffix_of
    (fun p => p)
    (fun _ => Some (L "abc"))
    (fun _ => L "YWJj")
    (fun _ => None)
    (fun _ _ => CosmosClient.Content (L "<think>t</think><answer>a</answer>"))
    (Some [L "nvidia/Cosmos-Reason2-2B"]).

(** The same world with the service down. *)
Definition unreachable : CosmosClient.env :=
  CosmosClient.Env
    (fun _ => true)
    suffix_of
    (fun p => p)
    (fun _ => Some (L "abc"))
    (fun _ => L "YWJj")
    (fun _ => None)
    (fun _ _ => CosmosClient.RaiseConnectionError)
    None.

(** The sharp s, a small letter whose capital is "SS". *)
Definition sharp_s : ascii := "223"%char.

(** A line feed. *)
Definition nl : str := ["010"%char].

(** A reply in mixed case, over several lines, the answer first. *)
Definition mixed_reply : str :=
  L "<Answer> yes" ++ nl ++ L "</ANSWER> then <THINK>" ++ nl ++
  L "it falls" ++ nl ++ L "as it should  </think> end".

(** A reply whose answer marker is never closed. *)
Definition unclosed_reply : str :=
  L "  <think>hm</think> <answer>yes" ++ nl.

End Samples.

(* ===================================================================== *)
(** * Further vocabulary: the batch table, the reasoning block, requests *)
(* ===================================================================== *)

Module Extra.

(** ** The batch run *)

(** The row that job [i] appends for the video [v]. *)
Definition row_of (w : VideoEvaluator.env) (i : nat) (v : str)
  : VideoEvaluator.record :=
  let r := VideoEvaluator.evaluate_video (VideoEvaluator.subprocess_run w) v in
  VideoEvaluator.Record_
    (VideoEvaluator.path_name w v) v
    (VideoEvaluator.verdict_of r) (VideoEvaluator.answer_of r)
    (VideoEvaluator.reasoning_of r)
    (VideoEvaluator.now_isoformat w i).

(** The rows of the videos [vs], the first of which is job [i]. *)
Fixpoint rows_from (w : VideoEvaluator.env) (i : nat) (vs : list str)
  : list VideoEvaluator.record :=
  match vs with
  | [] => []
  | v :: rest => row_of w i v :: rows_from w (S i) rest
  end.

(** What job [i] of [n] prints. *)
Definition job_log (w : VideoEvaluator.env) (verbose : bool) (n i : nat)
           (v : str) : list VideoEvaluator.event :=
  let r := row_of w i v in
  [VideoEvaluator.Print (VideoEvaluator.Evaluating i n (VideoEvaluator.video r));
   VideoEvaluator.Print (VideoEvaluator.ShowAnswer (VideoEvaluator.answer r));
   VideoEvaluator.Print (VideoEvaluator.ShowVerdict (VideoEvaluator.verdict r))]
  ++ (if verbose
      then [VideoEvaluator.Print
              (VideoEvaluator.ShowReasoning
                 (firstn 200 (VideoEvaluator.reasoning r)))]
      else []).

Fixpoint jobs_log (w : VideoEvaluator.env) (verbose : bool) (n i : nat)
         (vs : list str) : list VideoEvaluator.event :=
  match vs with
  | [] => []
  | v :: rest => job_log w verbose n i v ++ jobs_log w verbose n (S i) rest
  end.

(** Where the table goes: the output folder, or the input folder. *)
Definition destination (folder : str) (out : option str) : str :=
  match out with
  | Some o => o
  | None => folder
  end.

Definition csv_file (w : VideoEvaluator.env) (folder : str)
           (out : option str) : str :=
  VideoEvaluator.path_join w (destination folder out)
    (L "evaluation_" ++ VideoEvaluator.now_strftime w ++ L ".csv").

Definition is_to_csv (e : VideoEvaluator.event) : bool :=
  match e with
  | VideoEvaluator.ToCsv _ _ => true
  | _ => false
  end.

Definition is_show_reasoning (e : VideoEvaluator.event) : bool :=
  match e with
  | VideoEvaluator.Print (VideoEvaluator.ShowReasoning _) => true
  | _ => false
  end.

(** ** The reasoning block of a transcript *)

Definition separator : str := L "--------------------".

(** Where [$] matches: at the end of the text, or before a line feed
    that ends it. *)
Definition is_eos (s : str) : bool :=
  match s with
  | [] => true
  | [c] => Ascii.eqb c "010"%char
  | _ => false
  end.

(** [s] begins with the separator, optional white space and the marker
    of the answer. *)
Definition separator_follows (s : str) : bool :=
  (starts_with separator s &&
   starts_with (L "Assistant:")
               (Spec.drop_while Char.is_space (skipn 20 s)))%bool.

(** The reasoning block ends where [s] begins. *)
Definition ends_block (s : str) : bool :=
  (separator_follows s || is_eos s)%bool.

(** Where the match ends, when the block ends at [s], position [p]. *)
Definition block_end_pos (s : str) (p : nat) : nat :=
  if separator_follows s
  then p + 20 + length (Spec.take_while Char.is_space (skipn 20 s)) + 10
  else p.

(** Length of the reasoning block that starts with [r]. *)
Definition block_length (r : str) : nat :=
  match Spec.first_success (Spec.guard ends_block) r 0 with
  | Some j => j
  | None => length r
  end.

(** ** The runs of the single-shot client *)

Definition is_post (e : CosmosClient.event) : bool :=
  match e with
  | CosmosClient.Post _ _ => true
  | _ => false
  end.

Definition is_get (e : CosmosClient.event) : bool :=
  match e with
  | CosmosClient.Get _ => true
  | _ => false
  end.

(** The extension of the file, as [process_file] looks it up. *)
Definition ext_of (w : CosmosClient.env) (file_path : str) : str :=
  lower (CosmosClient.path_suffix w file_path).

(** The prompt file, when one is given, loads and has a system prompt
    that is not [null]. *)
Definition prompts_ready (w : CosmosClient.env) (yaml_file : option str)
  : bool :=
  match yaml_file with
  | Some (c :: f) =>
      match CosmosClient.yaml_safe_load w (c :: f) with
      | Some data =>
          match CosmosClient.dict_get data (L "system_prompt")
                  (Some (L "You are a helpful assistant.")) with
          | Some _ => true
          | None => false
          end
      | None => false
      end
  | _ => true
  end.

(** All that [process_file] needs before it sends the request. *)
Definition ready (w : CosmosClient.env) (file_path : str)
           (yaml_file : option str) : bool :=
  (CosmosClient.path_exists w file_path &&
   (CosmosClient.mem (ext_of w file_path) CosmosClient.VIDEO_EXTENSIONS ||
    CosmosClient.mem (ext_of w file_path) CosmosClient.IMAGE_EXTENSIONS) &&
   match CosmosClient.read_bytes w file_path with
   | Some _ => true
   | None => false
   end &&
   prompts_ready w yaml_file)%bool.

(** What is shown of a reply when the reasoning is hidden. *)
Definition hide_reasoning (e : CosmosClient.event) : CosmosClient.event :=
  match e with
  | CosmosClient.Print (CosmosClient.ShowReasoningAndAnswer _ a) =>
      CosmosClient.Print (CosmosClient.ShowResult a)
  | _ => e
  end.

(** The key [k] is bound in the mapping [d]. *)
Definition has_key (d : CosmosClient.yaml) (k : str) : Prop :=
  exists v, In (k, v) d.

(** A world like [Samples.answering] whose prompt files all hold
    [system_prompt: null]. *)
Definition null_prompt : CosmosClient.env :=
  CosmosClient.Env
    (fun _ => true)
    Samples.suffix_of
    (fun p => p)
    (fun _ => Some (L "abc"))
    (fun _ => L "YWJj")
    (fun _ => Some [(L "system_prompt", None)])
    (fun _ _ => CosmosClient.Content (L "<think>t</think><answer>a</answer>"))
    (Some [L "nvidia/Cosmos-Reason2-2B"]).

(** A world whose prompt files hold a user prompt only. *)
Definition user_prompt_only : CosmosClient.env :=
  CosmosClient.Env
    (fun _ => true)
    Samples.suffix_of
    (fun p => p)
    (fun _ => Some (L "abc"))
    (fun _ => L "YWJj")
    (fun _ => Some [(L "user_prompt", Some (L "Count the cars."))])
    (fun _ _ => CosmosClient.Content (L "three"))
    (Some [L "nvidia/Cosmos-Reason2-2B"]).

(** The words that are commands when they come first. *)
Definition command_words : list str :=
  [L "-h"; L "--help"; L "help"; L "test"; L "--test"].

End Extra.

(* ===================================================================== *)
(** * Characters *)
(* ===================================================================== *)

Section Characters.
Import Spec.

Lemma all_ascii_complete (c : ascii) : In c all_ascii.
Proof.
  unfold all_ascii. rewrite <- (ascii_nat_embedding c).
  apply in_map, in_seq. pose proof (nat_ascii_bounded c). lia.
Qed.

(** A property of characters that holds of the 256 of them. *)
Lemma for_all_ascii (P : ascii -> bool) :
  forallb P all_ascii = true -> forall c, P c = true.
Proof.
  intros H c. rewrite forallb_forall in H. apply H, all_ascii_complete.
Qed.

Lemma for_all_ascii2 (P : ascii -> ascii -> bool) :
  forallb (fun a => forallb (P a) all_ascii) all_ascii = true ->
  forall a b, P a b = true.
Proof.
  intros H a b.
  apply (for_all_ascii (P a)).
  apply (for_all_ascii (fun a => forallb (P a) all_ascii) H).
Qed.

Lemma space_not_word (c : ascii) :
  Char.is_space c = true -> Char.is_word c = false.
Proof.
  intros H.
  pose proof (for_all_ascii
    (fun c => implb (Char.is_space c) (negb (Char.is_word c)))
    ltac:(vm_compute; reflexivity) c) as E.
  cbv beta in E. rewrite H in E. simpl in E. now apply negb_true_iff.
Qed.

Lemma word_not_space (c : ascii) :
  Char.is_word c = true -> Char.is_space c = false.
Proof.
  intros H. destruct (Char.is_space c) eqn:E; [|reflexivity].
  apply space_not_word in E. congruence.
Qed.

End Characters.

(* ===================================================================== *)
(** * Texts *)
(* ===================================================================== *)

Section Texts.
Import Spec.

Lemma str_eqb_eq (a b : str) : str_eqb a b = true <-> a = b.
Proof.
  unfold str_eqb. destruct (list_eq_dec ascii_dec a b); split; congruence.
Qed.

Lemma str_eqb_refl (a : str) : str_eqb a a = true.
Proof. now apply str_eqb_eq. Qed.

Lemma starts_with_iff (p s : str) :
  starts_with p s = true <-> exists rest, s = p ++ rest.
Proof.
  revert s. induction p as [|a p IH]; intros s; simpl.
  - split; eauto.
  - destruct s as [|b s].
    + split; [discriminate | intros [r Hr]; discriminate].
    + rewrite andb_true_iff, Ascii.eqb_eq, IH. split.
      * intros [-> [r ->]]. now exists r.
      * intros [r Hr]. injection Hr as -> ->. eauto.
Qed.

Lemma str_in_iff (p s : str) : str_in p s = true <-> occurs p s.
Proof.
  unfold occurs. induction s as [|b s IH]; simpl.
  - rewrite orb_false_r, starts_with_iff. split.
    + intros [r Hr]. now exists [], r.
    + intros [pre [post H]]. symmetry in H.
      apply app_eq_nil in H as [-> H]. apply app_eq_nil in H as [-> _].
      now exists [].
  - rewrite orb_true_iff, starts_with_iff, IH. split.
    + intros [[r Hr] | [pre [post H]]].
      * now exists [], r.
      * exists (b :: pre), post. now rewrite H.
    + intros [[|c pre] [post H]].
      * left. now exists post.
      * right. injection H as _ H. eauto.
Qed.

(** An ASCII character has a capital of one character, and comparing
    with that capital is comparing without regard to case, when the
    other character is its own capital. *)
Lemma upper_eqb_lower (a b : ascii) :
  Char.upper a = [a] -> Char.is_ascii b = true ->
  exists u, Char.upper b = [u] /\
            Ascii.eqb a u = Ascii.eqb (Char.lower a) (Char.lower b).
Proof.
  intros Ha Hb.
  pose proof (for_all_ascii2
    (fun a b => implb (str_eqb (Char.upper a) [a] && Char.is_ascii b)
       match Char.upper b with
       | [u] => Bool.eqb (Ascii.eqb a u)
                         (Ascii.eqb (Char.lower a) (Char.lower b))
       | _ => false
       end)) as E.
  specialize (E ltac:(vm_compute; reflexivity) a b).
  cbv beta in E. rewrite Ha, str_eqb_refl, Hb in E. cbn [andb implb] in E.
  destruct (Char.upper b) as [|u [|v r]]; try discriminate.
  exists u. split; [reflexivity | now apply Bool.eqb_prop].
Qed.

Lemma upper_cons_ascii (b : ascii) (s : str) :
  Char.is_ascii b = true ->
  exists u, upper (b :: s) = u :: upper s /\
            forall a, Char.upper a = [a] ->
                      Ascii.eqb a u = Ascii.eqb (Char.lower a) (Char.lower b).
Proof.
  intros Hb.
  destruct (@upper_eqb_lower "A"%char b eq_refl Hb) as [u [Eu _]].
  exists u. split.
  - unfold upper. cbn [flat_map]. now rewrite Eu.
  - intros a Ha. destruct (@upper_eqb_lower a b Ha Hb) as [u' [Eu' E]].
    congruence.
Qed.

Lemma starts_with_upper (p s : str) :
  capitals p -> forallb Char.is_ascii s = true ->
  starts_with p (upper s) = starts_with (lower p) (lower s).
Proof.
  revert s. induction p as [|a p IH]; intros s Hp Hs; [reflexivity|].
  inversion Hp as [|a' p' Ha Hp']; subst.
  destruct s as [|b s]; [reflexivity|].
  cbn [forallb] in Hs. apply andb_true_iff in Hs as [Hb Hs].
  destruct (@upper_cons_ascii b s Hb) as [u [Eu E]].
  rewrite Eu. cbn [lower map starts_with].
  rewrite (E a Ha). f_equal. now apply IH.
Qed.

(** The test of the source, a substring test on the upper-cased answer,
    is the case-insensitive test on an answer of ASCII characters. *)
Lemma str_in_upper (p s : str) :
  capitals p -> forallb Char.is_ascii s = true ->
  str_in p (upper s) = ci_contains p s.
Proof.
  intros Hp. unfold ci_contains.
  induction s as [|b s IH]; intros Hs.
  - cbn [str_in upper flat_map lower map]. f_equal.
    apply (@starts_with_upper p [] Hp eq_refl).
  - pose proof (@starts_with_upper p (b :: s) Hp Hs) as Hsw.
    cbn [forallb] in Hs. apply andb_true_iff in Hs as [Hb Hs].
    destruct (@upper_cons_ascii b s Hb) as [u [Eu _]].
    rewrite Eu in *. cbn [str_in lower map] in *.
    now rewrite Hsw, (IH Hs).
Qed.

Lemma ci_contains_iff (p s : str) : ci_contains p s = true <-> ci_occurs p s.
Proof.
  unfold ci_contains, ci_occurs, ci_eq. rewrite str_in_iff. unfold occurs, lower.
  split.
  - intros [pre [post H]].
    apply map_eq_app in H as [pre' [r [-> [<- H]]]].
    apply map_eq_app in H as [mid [post' [-> [H <-]]]].
    now exists pre', mid, post'.
  - intros [pre [mid [post [-> H]]]].
    exists (map Char.lower pre), (map Char.lower post).
    now rewrite !map_app, H.
Qed.

End Texts.

(* ===================================================================== *)
(** * The verdict *)
(* ===================================================================== *)

Section Verdict.
Import Spec VideoEvaluator.

(** When the pattern of the answer finds nothing, the sentinel is
    classified by the same substring tests, and the second one holds
    of it. *)
Lemma interpret_no_answer (output : str) :
  Re.search false assistant_re output = None ->
  verdict_of (interpret output) = L "FAIL" /\
  answer_of (interpret output) = L "UNKNOWN".
Proof.
  intros H. unfold interpret. rewrite H. split; reflexivity.
Qed.

(** C1 (evaluation of the code): with an empty transcript, as a failed
    job leaves it, the answer is the sentinel UNKNOWN and the verdict is
    FAIL, because "NO" is a substring of "UNKNOWN". *)
Theorem C1_unknown_sentinel_verdict :
  forall video_path : str,
    let r := evaluate_video (fun _ => []) video_path in
    answer_of r = L "UNKNOWN" /\
    str_in (L "NO") (L "UNKNOWN") = true /\
    verdict_of r = L "FAIL" /\
    verdict_of r <> L "UNCLEAR".
Proof.
  intros video_path. cbv zeta.
  repeat apply conj; try reflexivity. discriminate.
Qed.

(** The verdict, by the substring tests on the upper-cased answer. *)
Lemma verdict_by_upper (output : str) :
  let r := interpret output in
  verdict_of r =
    if str_in (L "YES") (upper (answer_of r)) then L "PASS"
    else if str_in (L "NO") (upper (answer_of r)) then L "FAIL"
    else L "UNCLEAR".
Proof.
  unfold interpret.
  destruct (Re.search false assistant_re _) as [m|]; reflexivity.
Qed.

(** On a text of ASCII characters, a text of capitals occurs in the
    upper-cased text exactly when it occurs in the text up to case. *)
Lemma upper_occurs_ascii (p s : str) :
  capitals p -> forallb Char.is_ascii s = true ->
  (occurs p (upper s) <-> ci_occurs p s).
Proof.
  intros Hp Hs.
  split; intros H.
  - apply ci_contains_iff. rewrite <- (@str_in_upper p s Hp Hs).
    now apply str_in_iff.
  - apply str_in_iff. rewrite (@str_in_upper p s Hp Hs).
    now apply ci_contains_iff.
Qed.

Example verdict_mixed_case :
  map (fun a => verdict_of (interpret (L "Assistant: " ++ a)))
      [L "yes"; L "Yes"; L "no"; L "nO"; L "maybe"; L "Unknown";
       L "no_yes"; L "eyes"; L "snow"]
  = [L "PASS"; L "PASS"; L "FAIL"; L "FAIL"; L "UNCLEAR"; L "FAIL";
     L "PASS"; L "PASS"; L "FAIL"].
Proof. reflexivity. Qed.

End Verdict.

(* ===================================================================== *)
(** * The matcher *)
(* ===================================================================== *)

Section Scanning.
Import Spec.
Variable T : Type.
Variable f : str -> nat -> option T.

Lemma first_success_none (s : str) (pos : nat) :
  first_success f s pos = None <->
  forall n, n <= length s -> f (skipn n s) (pos + n) = None.
Proof.
  revert pos. induction s as [|c s IH]; intros pos; simpl.
  - destruct (f [] pos) eqn:E; split; try discriminate; trivial.
    + intros H. specialize (H 0 (Nat.le_refl _)). simpl in H.
      rewrite Nat.add_0_r in H. congruence.
    + intros _ n Hn. replace n with 0 by lia. simpl.
      now rewrite Nat.add_0_r.
  - destruct (f (c :: s) pos) eqn:E.
    + split; [discriminate|]. intros H.
      specialize (H 0 ltac:(lia)). simpl in H.
      rewrite Nat.add_0_r in H. congruence.
    + rewrite IH. split.
      * intros H [|n] Hn; simpl.
        -- now rewrite Nat.add_0_r.
        -- rewrite Nat.add_succ_r. apply (H n). lia.
      * intros H n Hn. specialize (H (S n) ltac:(lia)). simpl in H.
        now rewrite Nat.add_succ_r in H.
Qed.

Lemma first_success_some (s : str) (pos : nat) (x : T) :
  first_success f s pos = Some x <->
  exists n, n <= length s /\ f (skipn n s) (pos + n) = Some x /\
            forall m, m < n -> f (skipn m s) (pos + m) = None.
Proof.
  revert pos. induction s as [|c s IH]; intros pos; simpl.
  - destruct (f [] pos) eqn:E; split.
    + intros [= <-]. exists 0. simpl. rewrite Nat.add_0_r.
      repeat split; auto. intros m Hm. lia.
    + intros [n [Hn [H _]]]. replace n with 0 in H by lia. simpl in H.
      rewrite Nat.add_0_r in H. congruence.
    + discriminate.
    + intros [n [Hn [H _]]]. replace n with 0 in H by lia. simpl in H.
      rewrite Nat.add_0_r in H. congruence.
  - destruct (f (c :: s) pos) eqn:E.
    + split.
      * intros [= <-]. exists 0. simpl. rewrite Nat.add_0_r.
        repeat split; auto; try lia.
      * intros [[|n] [Hn [H Hm]]].
        -- simpl in H. rewrite Nat.add_0_r in H. congruence.
        -- specialize (Hm 0 ltac:(lia)). simpl in Hm.
           rewrite Nat.add_0_r in Hm. congruence.
    + rewrite IH. split.
      * intros [n [Hn [H Hm]]]. exists (S n). simpl.
        rewrite Nat.add_succ_r. repeat split; auto; try lia.
        intros [|m] Hlt; simpl.
        -- now rewrite Nat.add_0_r.
        -- rewrite Nat.add_succ_r. apply Hm. lia.
      * intros [[|n] [Hn [H Hm]]].
        -- simpl in H. rewrite Nat.add_0_r in H. congruence.
        -- exists n. simpl in H. rewrite Nat.add_succ_r in H.
           repeat split; auto; try lia.
           intros m Hlt. specialize (Hm (S m) ltac:(lia)). simpl in Hm.
           now rewrite Nat.add_succ_r in Hm.
Qed.

Lemma first_success_ext (g : str -> nat -> option T) :
  (forall s p, f s p = g s p) ->
  forall s pos, first_success f s pos = first_success g s pos.
Proof.
  intros H s. induction s as [|c s IH]; intros pos; simpl; rewrite H.
  - reflexivity.
  - now rewrite IH.
Qed.

(** A success anywhere makes the scan succeed (maybe earlier). *)
Lemma first_success_exists (s : str) (pos n : nat) (x : T) :
  n <= length s -> f (skipn n s) (pos + n) = Some x ->
  exists y, first_success f s pos = Some y.
Proof.
  intros Hn H. destruct (first_success f s pos) as [y|] eqn:E; [eauto|].
  rewrite first_success_none in E. rewrite (E n Hn) in H. discriminate.
Qed.

End Scanning.

Section Matcher.
Import Spec Re.

(** *** Literals *)

Lemma eat_exact (l s : str) :
  eat false l s = if starts_with l s then Some (skipn (length l) s) else None.
Proof.
  revert s. induction l as [|a l IH]; intros s; [reflexivity|].
  destruct s as [|b s]; [reflexivity|]. simpl.
  destruct (Ascii.eqb a b); [apply IH | reflexivity].
Qed.

Lemma eat_ci (l s : str) :
  eat true l s =
    if starts_with (lower l) (lower s) then Some (skipn (length l) s)
    else None.
Proof.
  revert s. induction l as [|a l IH]; intros s; [reflexivity|].
  destruct s as [|b s]; [reflexivity|]. simpl.
  destruct (Ascii.eqb (Char.lower a) (Char.lower b)); [apply IH | reflexivity].
Qed.

(** *** Repetition *)

Lemma star_lazy_any (T : Type) (s : str) (pos : nat) (cap : capture)
      (k : cont T) :
  star_lazy Char.any s pos cap k = first_success (fun s' p => k s' p cap) s pos.
Proof.
  revert pos. induction s as [|c s IH]; intros pos; simpl.
  - reflexivity.
  - destruct (k (c :: s) pos cap); [reflexivity | apply IH].
Qed.

Lemma search_from_scan (ic : bool) (r : regex) (s : str) (pos : nat) :
  search_from ic r s pos = first_success (match_at ic r) s pos.
Proof.
  revert pos. induction s as [|c s IH]; intros pos; simpl.
  - reflexivity.
  - destruct (match_at ic r (c :: s) pos); [reflexivity | apply IH].
Qed.

Lemma skipn_app_exact (pre rest : str) :
  skipn (length pre) (pre ++ rest) = rest.
Proof. now rewrite skipn_app, skipn_all, Nat.sub_diag. Qed.

Lemma take_drop_while (p : ascii -> bool) (s : str) :
  s = take_while p s ++ drop_while p s.
Proof.
  induction s as [|c s IH]; simpl; [reflexivity|].
  destruct (p c); simpl; [now f_equal | reflexivity].
Qed.

Lemma skipn_take_while (p : ascii -> bool) (s : str) :
  skipn (length (take_while p s)) s = drop_while p s.
Proof.
  induction s as [|c s IH]; simpl; [reflexivity|].
  destruct (p c); simpl; [apply IH | reflexivity].
Qed.

Lemma firstn_take_while (p : ascii -> bool) (s : str) :
  firstn (length (take_while p s)) s = take_while p s.
Proof.
  induction s as [|c s IH]; simpl; [reflexivity|].
  destruct (p c); simpl; [now f_equal | reflexivity].
Qed.

Lemma take_while_all (p : ascii -> bool) (s : str) :
  forallb p (take_while p s) = true.
Proof.
  induction s as [|c s IH]; simpl; [reflexivity|].
  destruct (p c) eqn:E; simpl; [now rewrite E | reflexivity].
Qed.

(** A greedy repetition settles on the whole run when the rest of the
    pattern, if it fails there, fails after every shorter run too. *)
Lemma star_greedy_commit (T : Type) (p : ascii -> bool) (s : str)
      (pos : nat) (cap : capture) (k : cont T) :
  (k (drop_while p s) (pos + length (take_while p s)) cap = None ->
   forall n, n < length (take_while p s) ->
             k (skipn n s) (pos + n) cap = None) ->
  star_greedy p s pos cap k =
    k (drop_while p s) (pos + length (take_while p s)) cap.
Proof.
  revert pos. induction s as [|c s IH]; intros pos H; simpl.
  - now rewrite Nat.add_0_r.
  - destruct (p c) eqn:E; simpl in *; rewrite ?E in *; simpl in *.
    + rewrite Nat.add_succ_r in *.
      rewrite (IH (S pos)).
      * destruct (k (drop_while p s) _ cap) eqn:Ek; [reflexivity|].
        specialize (H eq_refl 0 ltac:(lia)). simpl in H.
        now rewrite Nat.add_0_r in H.
      * intros Hk n Hn. specialize (H Hk (S n) ltac:(lia)). simpl in H.
        now rewrite Nat.add_succ_r in H.
    + now rewrite Nat.add_0_r.
Qed.

End Matcher.

(* ===================================================================== *)
(** * The answer of a transcript *)
(* ===================================================================== *)

Section Answer.
Import Spec Re VideoEvaluator.

Lemma skipn_in_run (p : ascii -> bool) (s : str) (n : nat) :
  n < length (take_while p s) ->
  exists c rest, skipn n s = c :: rest /\ p c = true.
Proof.
  revert n. induction s as [|c s IH]; intros n; simpl; [lia|].
  destruct (p c) eqn:E; simpl; [|lia].
  destruct n as [|n]; intros Hn.
  - now exists c, s.
  - apply IH. lia.
Qed.

(** Where the pattern of the answer matches at the head of [s], and
    what it captures: the white space and the word characters are each
    taken as one whole run. *)
Lemma match_at_assistant (s : str) (pos : nat) :
  match_at false assistant_re s pos =
    if answer_follows s then
      let b := pos + 10 + length (take_while Char.is_space (skipn 10 s)) in
      let e := b + length (take_while Char.is_word
                             (drop_while Char.is_space (skipn 10 s))) in
      Some (MatchObject pos e (Some (b, e)))
    else None.
Proof.
  unfold match_at, assistant_re, answer_follows. cbn [run].
  rewrite eat_exact.
  destruct (starts_with (L "Assistant:") s); [|reflexivity].
  change (length (L "Assistant:")) with 10. cbn [andb].
  rewrite star_greedy_commit.
  - destruct (drop_while Char.is_space (skipn 10 s)) as [|c s2] eqn:E;
      [reflexivity|].
    cbn [take_while]. destruct (Char.is_word c); [|reflexivity].
    rewrite star_greedy_commit by discriminate.
    cbn [length]. cbv zeta. now rewrite !Nat.add_succ_r.
  - intros _ n Hn.
    destruct (skipn_in_run _ _ Hn) as [c [rest [-> Hc]]].
    now rewrite (space_not_word _ Hc).
Qed.

Lemma first_success_guard_bounds (A : str -> bool) (s : str) (pos i : nat) :
  first_success (guard A) s pos = Some i ->
  pos <= i /\ A (skipn (i - pos) s) = true.
Proof.
  intros H. apply first_success_some in H as [n [Hn [H _]]].
  unfold guard in H.
  destruct (A (skipn n s)) eqn:E; [|discriminate].
  injection H as <-. replace (pos + n - pos) with n by lia.
  split; [lia | assumption].
Qed.

Lemma first_success_guard (T : Type) (A : str -> bool)
      (F : str -> nat -> T) (s : str) (pos : nat) :
  first_success (fun s' p => if A s' then Some (F s' p) else None) s pos =
    match first_success (guard A) s pos with
    | Some i => Some (F (skipn (i - pos) s) i)
    | None => None
    end.
Proof.
  revert pos. induction s as [|c s IH]; intros pos; unfold guard; simpl.
  - destruct (A []); [|reflexivity]. now rewrite Nat.sub_diag.
  - destruct (A (c :: s)); [now rewrite Nat.sub_diag|].
    rewrite IH. fold (guard A).
    destruct (first_success (guard A) s (S pos)) as [i|] eqn:E; [|reflexivity].
    apply first_success_guard_bounds in E as [Hi _].
    replace (i - pos) with (S (i - S pos)) by lia. reflexivity.
Qed.

(** The search for the answer finds the leftmost marker that an answer
    follows. *)
Lemma search_assistant (output : str) :
  search false assistant_re output =
    match find_answer output with
    | Some i =>
        let s := skipn i output in
        let b := i + 10 + length (take_while Char.is_space (skipn 10 s)) in
        let e := b + length (take_while Char.is_word
                               (drop_while Char.is_space (skipn 10 s))) in
        Some (MatchObject i e (Some (b, e)))
    | None => None
    end.
Proof.
  unfold search, find_answer. rewrite search_from_scan.
  rewrite (first_success_ext _ _ match_at_assistant).
  rewrite first_success_guard.
  destruct (first_success _ output 0) as [i|]; [|reflexivity].
  now rewrite Nat.sub_0_r.
Qed.

Lemma lstrip_no_space (s : str) :
  forallb (fun c => negb (Char.is_space c)) s = true -> lstrip s = s.
Proof.
  destruct s as [|c s]; simpl; [reflexivity|].
  destruct (Char.is_space c); [discriminate | reflexivity].
Qed.

Lemma strip_no_space (s : str) :
  forallb (fun c => negb (Char.is_space c)) s = true -> strip s = s.
Proof.
  intros H. unfold strip, rstrip. rewrite (lstrip_no_space _ H).
  rewrite lstrip_no_space; [apply rev_involutive|].
  rewrite forallb_forall in *. intros c Hc. apply H. now apply in_rev.
Qed.

Lemma strip_word (s : str) : forallb Char.is_word s = true -> strip s = s.
Proof.
  intros H. apply strip_no_space.
  rewrite forallb_forall in *. intros c Hc.
  now rewrite (word_not_space _ (H c Hc)).
Qed.

(** The answer of a transcript, read off the text. *)
Lemma answer_of_interpret (output : str) :
  answer_of (interpret output) =
    match find_answer output with
    | Some i =>
        take_while Char.is_word
                   (drop_while Char.is_space (skipn (i + 10) output))
    | None => L "UNKNOWN"
    end.
Proof.
  unfold interpret. rewrite search_assistant.
  destruct (find_answer output) as [i|]; [|reflexivity].
  cbn [answer_of]. cbv zeta. unfold group1, slice. cbn [m_group1].
  rewrite skipn_skipn.
  replace (_ + _ - _) with
    (length (take_while Char.is_word
               (drop_while Char.is_space (skipn (10 + i) output)))) by lia.
  replace (i + 10 + length (take_while Char.is_space (skipn (10 + i) output)))
    with (length (take_while Char.is_space (skipn (10 + i) output)) + (10 + i))
    by lia.
  rewrite <- (skipn_skipn _ (10 + i) output).
  rewrite skipn_take_while, firstn_take_while.
  rewrite (Nat.add_comm i 10).
  apply strip_word, take_while_all.
Qed.

End Answer.

Section AnswerToken.
Import Spec Re VideoEvaluator.

Lemma find_answer_some (output : str) (i : nat) :
  find_answer output = Some i <->
  i <= length output /\ answer_follows (skipn i output) = true /\
  forall m, m < i -> answer_follows (skipn m output) = false.
Proof.
  unfold find_answer, guard. rewrite first_success_some. split.
  - intros [n [Hn [H Hm]]].
    destruct (answer_follows (skipn n output)) eqn:E; [|discriminate].
    injection H as <-. repeat split; auto.
    intros m Hlt. specialize (Hm m Hlt).
    now destruct (answer_follows (skipn m output)).
  - intros [Hn [H Hm]]. exists i. rewrite H. repeat split; auto.
    intros m Hlt. now rewrite (Hm m Hlt).
Qed.

Lemma find_answer_none (output : str) :
  find_answer output = None <->
  forall n, n <= length output -> answer_follows (skipn n output) = false.
Proof.
  unfold find_answer, guard. rewrite first_success_none.
  split; intros H n Hn; specialize (H n Hn);
    now destruct (answer_follows (skipn n output)).
Qed.

Lemma drop_while_app (p : ascii -> bool) (ws r : str) :
  forallb p ws = true -> drop_while p (ws ++ r) = drop_while p r.
Proof.
  induction ws as [|c ws IH]; simpl; [reflexivity|].
  intros H. apply andb_true_iff in H as [Hc H]. rewrite Hc. now apply IH.
Qed.

(** What [answer_follows] says of a text. *)
Lemma answer_follows_iff (s : str) :
  answer_follows s = true <->
  exists ws c rest,
    s = L "Assistant:" ++ ws ++ c :: rest /\
    forallb Char.is_space ws = true /\ Char.is_word c = true.
Proof.
  unfold answer_follows. rewrite andb_true_iff, starts_with_iff. split.
  - intros [[r ->] H].
    change 10 with (length (L "Assistant:")) in H.
    rewrite skipn_app_exact in H.
    destruct (drop_while Char.is_space r) as [|c rest] eqn:E; [discriminate|].
    exists (take_while Char.is_space r), c, rest.
    rewrite <- E, <- take_drop_while.
    repeat split; [apply take_while_all | exact H].
  - intros [ws [c [rest [-> [Hws Hc]]]]]. split; [eauto|].
    change 10 with (length (L "Assistant:")).
    rewrite skipn_app_exact, (@drop_while_app _ _ (c :: rest) Hws).
    cbn [drop_while].
    now rewrite (word_not_space _ Hc).
Qed.

(** C9 (as stated, at a transcript): the transcript holds the marker
    and the first run of word characters after it is YES, but the marker
    is followed by punctuation and the answer is the sentinel. *)
Lemma C9_marker_then_punctuation :
  let output := L "Assistant: **YES**" in
  let r := evaluate_video (fun _ => output) (L "clip.mp4") in
  str_in (L "Assistant:") output = true /\
  first_word_run (after_first (L "Assistant:") output) = L "YES" /\
  answer_of r = L "UNKNOWN" /\
  answer_of r <> first_word_run (after_first (L "Assistant:") output).
Proof.
  cbv zeta. repeat apply conj; try (vm_compute; reflexivity).
  vm_compute. discriminate.
Qed.

Lemma drop_while_head (p : ascii -> bool) (s : str) :
  match drop_while p s with
  | c :: _ => p c = false
  | [] => True
  end.
Proof.
  induction s as [|c s IH]; simpl; [exact I|].
  destruct (p c) eqn:E; [exact IH | exact E].
Qed.

(** The answer is not empty and made of word characters. *)
Lemma answer_word_token (output : str) :
  answer_of (interpret output) <> [] /\
  forallb Char.is_word (answer_of (interpret output)) = true.
Proof.
  rewrite answer_of_interpret.
  destruct (find_answer output) as [i|] eqn:E.
  - split; [|apply take_while_all].
    apply find_answer_some in E as [_ [E _]].
    unfold answer_follows in E. apply andb_true_iff in E as [_ E].
    rewrite skipn_skipn, Nat.add_comm in E.
    destruct (drop_while _ _) as [|c s2]; [discriminate|].
    simpl. rewrite E. discriminate.
  - split; [discriminate | reflexivity].
Qed.

(** C9 (amended): the answer is the whole run of word characters after
    the leftmost "Assistant:" marker that is followed by optional white
    space and a word character, and the sentinel UNKNOWN when there is
    no such marker; in both cases it is not empty and made of word
    characters only. *)
Theorem C9_answer_is_word_token :
  forall (subprocess_run : list str -> str) (video_path : str),
    let output := subprocess_run (inference_cmd video_path) in
    let a := answer_of (evaluate_video subprocess_run video_path) in
    a <> [] /\
    forallb Char.is_word a = true /\
    ((exists pre ws rest,
         output = pre ++ L "Assistant:" ++ ws ++ a ++ rest /\
         forallb Char.is_space ws = true /\
         match rest with
         | c :: _ => Char.is_word c = false
         | [] => True
         end /\
         forall m, m < length pre -> answer_follows (skipn m output) = false)
     \/
     ((forall n, answer_follows (skipn n output) = false) /\
      a = L "UNKNOWN")).
Proof.
  intros run video_path output a.
  destruct (answer_word_token output) as [Hne Hw].
  split; [exact Hne|]. split; [exact Hw|].
  subst a. unfold evaluate_video. fold output.
  rewrite answer_of_interpret.
  destruct (find_answer output) as [i|] eqn:E.
  - left. apply find_answer_some in E as [Hi [Hat Hbefore]].
    unfold answer_follows in Hat. apply andb_true_iff in Hat as [Hm _].
    apply starts_with_iff in Hm as [r Hr].
    assert (Er : skipn (i + 10) output = r).
    { rewrite Nat.add_comm, <- skipn_skipn, Hr.
      change 10 with (length (L "Assistant:")). apply skipn_app_exact. }
    rewrite Er.
    exists (firstn i output), (take_while Char.is_space r),
      (drop_while Char.is_word (drop_while Char.is_space r)).
    repeat split.
    + rewrite <- take_drop_while, <- take_drop_while, <- Hr.
      symmetry. apply firstn_skipn.
    + apply take_while_all.
    + apply drop_while_head.
    + intros m Hlt. apply Hbefore.
      rewrite length_firstn in Hlt. lia.
  - right. split; [|reflexivity].
    intros n. destruct (Nat.le_gt_cases n (length output)) as [Hle|Hgt].
    + now apply (proj1 (find_answer_none output)).
    + rewrite skipn_all2 by lia. reflexivity.
Qed.

Example transcript_with_reasoning :
  interpret (L "Reasoning: it falls" ++ Samples.nl ++
             L "--------------------" ++ Samples.nl ++
             L "Assistant: Yes, plausible")
  = (L "PASS",
     L "Reasoning: it falls" ++ Samples.nl ++
     L "--------------------" ++ Samples.nl ++
     L "Assistant: Yes, plausible",
     L "Yes", L "it falls").
Proof. reflexivity. Qed.

Example transcript_answer_on_next_line :
  answer_of (interpret (L "Assistant:" ++ Samples.nl ++ L "  No. It floats."))
  = L "No".
Proof. reflexivity. Qed.

Example answer_yes_plausible :
  answer_of (interpret (L "Assistant: YES, plausible")) = L "YES".
Proof. reflexivity. Qed.

Example answer_leftmost_usable_marker :
  answer_of (interpret (L "Assistant: ... Assistant:  no_way!")) = L "no_way".
Proof. reflexivity. Qed.

End AnswerToken.

(* ===================================================================== *)
(** * The verdict of the answer *)
(* ===================================================================== *)

Section VerdictOfAnswer.
Import Spec VideoEvaluator.

(** C2 (as stated, at a run): the answer "ye" followed by a sharp s
    holds neither "YES" nor "NO" in any case of its letters, and the
    verdict is PASS, because its upper-cased form is "YESS". *)
Lemma C2_sharp_s_answer :
  let r := evaluate_video (fun _ => L "Assistant: ye" ++ [Samples.sharp_s])
                          (L "clip.mp4") in
  answer_of r = L "ye" ++ [Samples.sharp_s] /\
  upper (answer_of r) = L "YESS" /\
  ~ ci_occurs (L "YES") (answer_of r) /\
  ~ ci_occurs (L "NO") (answer_of r) /\
  verdict_of r = L "PASS" /\
  verdict_of r <> L "UNCLEAR".
Proof.
  cbv zeta. split; [reflexivity|]. split; [reflexivity|].
  split; [|split; [|split; [reflexivity | discriminate]]];
    intros H; apply ci_contains_iff in H; discriminate H.
Qed.

(** C2 (amended): the answer is the token that follows the marker of
    the transcript, or the sentinel; the verdict is PASS when the
    upper-cased answer contains "YES", else FAIL when it contains "NO",
    else UNCLEAR; and for an answer of ASCII characters the upper-cased
    answer contains "YES" (or "NO") exactly when the answer contains it
    up to the case of its letters. *)
Theorem C2_verdict_priority :
  forall (subprocess_run : list str -> str) (video_path : str),
    let output := subprocess_run (inference_cmd video_path) in
    let r := evaluate_video subprocess_run video_path in
    answer_of r = answer_token output /\
    ((occurs (L "YES") (upper (answer_of r)) /\ verdict_of r = L "PASS") \/
     (~ occurs (L "YES") (upper (answer_of r)) /\
      occurs (L "NO") (upper (answer_of r)) /\ verdict_of r = L "FAIL") \/
     (~ occurs (L "YES") (upper (answer_of r)) /\
      ~ occurs (L "NO") (upper (answer_of r)) /\
      verdict_of r = L "UNCLEAR")) /\
    (forallb Char.is_ascii (answer_of r) = true ->
     (occurs (L "YES") (upper (answer_of r)) <->
      ci_occurs (L "YES") (answer_of r)) /\
     (occurs (L "NO") (upper (answer_of r)) <->
      ci_occurs (L "NO") (answer_of r))).
Proof.
  intros run video_path. cbv zeta. unfold evaluate_video.
  set (output := run (inference_cmd video_path)).
  split; [apply answer_of_interpret|]. split.
  - pose proof (verdict_by_upper output) as Hv. cbv zeta in Hv. rewrite Hv.
    destruct (str_in (L "YES") _) eqn:Ey.
    + left. split; [now apply str_in_iff | reflexivity].
    + right.
      assert (Hy : ~ occurs (L "YES") (upper (answer_of (interpret output)))).
      { intros H. apply str_in_iff in H. congruence. }
      destruct (str_in (L "NO") _) eqn:En.
      * left. repeat split; [exact Hy | now apply str_in_iff].
      * right. repeat split; [exact Hy|].
        intros H. apply str_in_iff in H. congruence.
  - intros Hs. split; apply upper_occurs_ascii; try exact Hs;
      repeat constructor.
Qed.

(** Three answers of ASCII letters, one for each verdict. *)
Lemma C2_verdict_priority_witness :
  (let r := evaluate_video (fun _ => L "Assistant: Yes") (L "clip.mp4") in
   forallb Char.is_ascii (answer_of r) = true /\
   ci_occurs (L "YES") (answer_of r) /\ verdict_of r = L "PASS") /\
  (let r := evaluate_video (fun _ => L "Assistant: no") (L "clip.mp4") in
   forallb Char.is_ascii (answer_of r) = true /\
   ~ ci_occurs (L "YES") (answer_of r) /\
   ci_occurs (L "NO") (answer_of r) /\ verdict_of r = L "FAIL") /\
  (let r := evaluate_video (fun _ => L "Assistant: maybe") (L "clip.mp4") in
   forallb Char.is_ascii (answer_of r) = true /\
   ~ ci_occurs (L "YES") (answer_of r) /\
   ~ ci_occurs (L "NO") (answer_of r) /\ verdict_of r = L "UNCLEAR").
Proof.
  split; [|split]; cbv zeta.
  - pose proof (@C2_verdict_priority (fun _ => L "Assistant: Yes")
                  (L "clip.mp4")) as H.
    cbv zeta in H. destruct H as [_ [Hv Hci]].
    destruct (Hci eq_refl) as [Hy Hn].
    split; [reflexivity|].
    destruct Hv as [[Ho Hv] | [[Ho _] | [Ho _]]].
    + split; [now apply Hy | exact Hv].
    + exfalso. apply Ho, str_in_iff. reflexivity.
    + exfalso. apply Ho, str_in_iff. reflexivity.
  - pose proof (@C2_verdict_priority (fun _ => L "Assistant: no")
                  (L "clip.mp4")) as H.
    cbv zeta in H. destruct H as [_ [Hv Hci]].
    destruct (Hci eq_refl) as [Hy Hn].
    split; [reflexivity|].
    destruct Hv as [[Ho _] | [[Hoy [Ho Hv]] | [_ [Ho _]]]].
    + apply str_in_iff in Ho. discriminate Ho.
    + split; [intros H; now apply Hoy, Hy|].
      split; [now apply Hn | exact Hv].
    + exfalso. apply Ho, str_in_iff. reflexivity.
  - pose proof (@C2_verdict_priority (fun _ => L "Assistant: maybe")
                  (L "clip.mp4")) as H.
    cbv zeta in H. destruct H as [_ [Hv Hci]].
    destruct (Hci eq_refl) as [Hy Hn].
    split; [reflexivity|].
    destruct Hv as [[Ho _] | [[_ [Ho _]] | [Hoy [Hon Hv]]]].
    + apply str_in_iff in Ho. discriminate Ho.
    + apply str_in_iff in Ho. discriminate Ho.
    + split; [intros H; now apply Hoy, Hy|].
      split; [intros H; now apply Hon, Hn | exact Hv].
Defined.

End VerdictOfAnswer.

(* ===================================================================== *)
(** * The reasoning of a transcript *)
(* ===================================================================== *)

Section ReasoningBlock.
Import Spec Re VideoEvaluator.

(** A pattern that begins with a literal finds nothing in a text that
    does not hold the literal. *)
Lemma search_without_literal (l : str) (r : regex) (s : str) (pos : nat) :
  str_in l s = false -> search_from false (Seq (Lit l) r) s pos = None.
Proof.
  revert pos. induction s as [|c s IH]; intros pos H; simpl in H;
    apply orb_false_iff in H as [H1 H2];
    unfold search_from, match_at; cbn [run]; rewrite eat_exact, H1.
  - reflexivity.
  - apply (IH (S pos) H2).
Qed.

(** After the label the pattern always finds an end for the block: the
    separator before the answer or, failing that, the end of the text. *)
Lemma match_at_reasoning (s : str) (pos : nat) :
  starts_with (L "Reasoning:") s = true ->
  exists m, match_at false reasoning_re s pos = Some m.
Proof.
  intros H. unfold match_at, reasoning_re. cbn [run].
  rewrite eat_exact, H.
  set (k := fun (s' : str) (pos' : nat) (cap' : capture) => _).
  assert (Hk : forall s' pos' cap', exists m, k s' pos' cap' = Some m).
  { intros s' pos' cap'. unfold k. rewrite star_lazy_any.
    set (g := fun (s2 : str) (p : nat) => _).
    assert (Hend : exists m, g (skipn (length s') s') (pos' + length s') = Some m).
    { rewrite skipn_all. unfold g. eexists. reflexivity. }
    destruct Hend as [m Hm].
    apply (first_success_exists g s' pos' (Nat.le_refl _) Hm). }
  rewrite star_greedy_commit.
  - apply Hk.
  - intros Hnone. destruct (Hk (drop_while Char.is_space
                                   (skipn (length (L "Reasoning:")) s))
                               (pos + length (L "Reasoning:") +
                                length (take_while Char.is_space
                                   (skipn (length (L "Reasoning:")) s)))
                               None) as [m Hm].
    rewrite Hm in Hnone. discriminate.
Qed.

(** The pattern of the reasoning finds a block exactly when the text
    holds the label "Reasoning:". *)
Lemma search_reasoning_none (output : str) :
  search false reasoning_re output = None <->
  str_in (L "Reasoning:") output = false.
Proof.
  split.
  - intros H. destruct (str_in _ output) eqn:E; [|reflexivity].
    apply str_in_iff in E as [pre [post ->]].
    unfold search in H. rewrite search_from_scan, first_success_none in H.
    specialize (H (length pre)). rewrite length_app in H.
    specialize (H ltac:(lia)).
    rewrite skipn_app, skipn_all, Nat.sub_diag in H. simpl skipn in H.
    destruct (match_at_reasoning (L "Reasoning:" ++ post) (0 + length pre))
      as [m Hm].
    + apply starts_with_iff. now exists post.
    + simpl app in *. congruence.
  - intros H. now apply search_without_literal.
Qed.

(** Without the marker of the answer the verdict is FAIL, whatever else
    the transcript holds. *)
Lemma verdict_without_marker (output : str) :
  str_in (L "Assistant:") output = false ->
  answer_of (interpret output) = L "UNKNOWN" /\
  verdict_of (interpret output) = L "FAIL".
Proof.
  intros H. unfold interpret, search, assistant_re.
  rewrite (@search_without_literal (L "Assistant:") _ output 0 H). now split.
Qed.

(** C10: when the transcript has no "Reasoning:" block the recorded
    reasoning is the sentinel N/A, whatever the pattern of the answer
    finds. *)
Theorem C10_reasoning_fallback :
  forall (subprocess_run : list str -> str) (video_path : str),
    str_in (L "Reasoning:") (subprocess_run (inference_cmd video_path))
      = false ->
    reasoning_of (evaluate_video subprocess_run video_path) = L "N/A".
Proof.
  intros run video_path H. unfold evaluate_video, interpret.
  apply search_reasoning_none in H. rewrite H.
  now destruct (search false assistant_re _).
Qed.

(** A transcript with an answer and no reasoning: the answer is
    extracted and the reasoning is the sentinel. *)
Lemma C10_reasoning_fallback_witness :
  let r := evaluate_video (fun _ => L "Assistant: YES") (L "clip.mp4") in
  answer_of r = L "YES" /\ reasoning_of r = L "N/A".
Proof.
  split.
  - reflexivity.
  - apply (C10_reasoning_fallback (fun _ => L "Assistant: YES") (L "clip.mp4")).
    reflexivity.
Defined.

End ReasoningBlock.

(* ===================================================================== *)
(** * Sections of a reply *)
(* ===================================================================== *)

Section Sections.
Import Spec Re CosmosClient.

Lemma first_success_guard_shift (A : str -> bool) (s : str) (pos : nat) :
  first_success (guard A) s pos =
    option_map (fun j => pos + j) (first_success (guard A) s 0).
Proof.
  revert pos. induction s as [|c s IH]; intros pos; unfold guard in *; simpl.
  - destruct (A []); simpl; [now rewrite Nat.add_0_r | reflexivity].
  - destruct (A (c :: s)); simpl; [now rewrite Nat.add_0_r|].
    rewrite (IH (S pos)), (IH 1).
    destruct (first_success _ s 0); simpl; [f_equal; lia | reflexivity].
Qed.

Lemma find_from_scan (p s : str) (i : nat) :
  find_from p s i = first_success (guard (starts_with p)) s i.
Proof.
  revert i. induction s as [|c s IH]; intros i; unfold guard in *; simpl.
  - now destruct (starts_with p []).
  - destruct (starts_with p (c :: s)); [reflexivity | apply IH].
Qed.

Lemma first_success_lower (T : Type) (g : str -> nat -> option T)
      (s : str) (pos : nat) :
  first_success (fun s' j => g (lower s') j) s pos =
    first_success g (lower s) pos.
Proof.
  revert pos. induction s as [|c s IH]; intros pos; simpl; [reflexivity|].
  now rewrite IH.
Qed.

Lemma ci_find_scan (p s : str) :
  ci_find p s = first_success (guard (ci_starts_with p)) s 0.
Proof.
  unfold ci_find, find. rewrite find_from_scan.
  symmetry. apply (first_success_lower (guard (starts_with (lower p)))).
Qed.

Lemma ci_find_some (p s : str) (i : nat) :
  ci_find p s = Some i <->
  i <= length s /\ ci_starts_with p (skipn i s) = true /\
  forall m, m < i -> ci_starts_with p (skipn m s) = false.
Proof.
  rewrite ci_find_scan, first_success_some. unfold guard. split.
  - intros [n [Hn [H Hm]]].
    destruct (ci_starts_with p (skipn n s)) eqn:E; [|discriminate].
    injection H as <-. repeat split; auto.
    intros m Hlt. specialize (Hm m Hlt).
    now destruct (ci_starts_with p (skipn m s)).
  - intros [Hn [H Hm]]. exists i. rewrite H. repeat split; auto.
    intros m Hlt. now rewrite (Hm m Hlt).
Qed.

Lemma ci_find_none (p s : str) :
  ci_find p s = None <->
  forall n, n <= length s -> ci_starts_with p (skipn n s) = false.
Proof.
  rewrite ci_find_scan, first_success_none. unfold guard.
  split; intros H n Hn; specialize (H n Hn);
    now destruct (ci_starts_with p (skipn n s)).
Qed.

(** A text without a marker has no marker further on either. *)
Lemma ci_find_none_skipn (p s : str) (k : nat) :
  ci_find p s = None -> ci_find p (skipn k s) = None.
Proof.
  rewrite !ci_find_none. intros H n Hn. rewrite skipn_skipn.
  destruct (Nat.le_gt_cases (n + k) (length s)) as [Hle|Hgt].
  - now apply H.
  - rewrite skipn_all2 by lia. rewrite <- (skipn_all s). now apply H.
Qed.

Lemma ci_starts_with_iff (p s : str) :
  ci_starts_with p s = true <->
  exists x, s = x ++ skipn (length p) s /\ ci_eq x p.
Proof.
  unfold ci_starts_with, ci_eq. rewrite starts_with_iff. split.
  - intros [rest H]. unfold lower in H.
    apply map_eq_app in H as [x [y [-> [Hx Hy]]]].
    exists x. split; [|exact Hx].
    assert (length x = length p) as <-.
    { rewrite <- (length_map Char.lower x), Hx. apply length_map. }
    now rewrite skipn_app, skipn_all, Nat.sub_diag.
  - intros [x [Hs Hx]]. exists (lower (skipn (length p) s)).
    rewrite <- Hx. unfold lower. rewrite <- map_app. now f_equal.
Qed.

Lemma ci_starts_with_app (p x rest : str) :
  ci_eq x p -> ci_starts_with p (x ++ rest) = true.
Proof.
  intros H. unfold ci_starts_with, ci_eq in *. apply starts_with_iff.
  exists (lower rest). unfold lower in *. now rewrite map_app, H.
Qed.

Lemma ci_eq_length (x p : str) : ci_eq x p -> length x = length p.
Proof.
  unfold ci_eq, lower. intros H.
  now rewrite <- (length_map Char.lower x), H, length_map.
Qed.

(** Where the pattern of a section matches at the head of [s]: the
    opening marker is there, and the lazy body ends at the first closing
    marker that follows. *)
Lemma match_at_section (o c s : str) (pos : nat) :
  match_at true (section_re o c) s pos =
    if ci_starts_with o s then
      match ci_find c (skipn (length o) s) with
      | Some j =>
          let b := pos + length o in
          Some (MatchObject pos (b + j + length c) (Some (b, b + j)))
      | None => None
      end
    else None.
Proof.
  unfold match_at, section_re. cbn [run]. rewrite eat_ci.
  fold (ci_starts_with o s). destruct (ci_starts_with o s); [|reflexivity].
  rewrite star_lazy_any.
  rewrite (first_success_ext _
    (fun s' p => if ci_starts_with c s'
                 then Some ((fun _ e => MatchObject pos (e + length c)
                               (Some (pos + length o, e))) s' p)
                 else None)).
  - rewrite first_success_guard.
    rewrite first_success_guard_shift, <- ci_find_scan.
    now destruct (ci_find c _).
  - intros s' p. rewrite eat_ci. fold (ci_starts_with c s').
    now destruct (ci_starts_with c s').
Qed.

(** [re.search] for the pattern of a section. *)
Lemma search_section (o c s : str) :
  search true (section_re o c) s =
    match ci_find o s with
    | None => None
    | Some i =>
        match ci_find c (skipn (i + length o) s) with
        | None => None
        | Some j =>
            let b := i + length o in
            Some (MatchObject i (b + j + length c) (Some (b, b + j)))
        end
    end.
Proof.
  unfold search. rewrite search_from_scan.
  rewrite (first_success_ext _ _ (match_at_section o c)).
  destruct (ci_find o s) as [i|] eqn:Eo.
  - apply ci_find_some in Eo as [Hi [Hat Hbefore]].
    destruct (ci_find c (skipn (i + length o) s)) as [j|] eqn:Ec.
    + apply first_success_some. exists i. split; [exact Hi|]. split.
      * rewrite Hat, skipn_skipn, (Nat.add_comm (length o) i), Ec.
        reflexivity.
      * intros m Hm. now rewrite (Hbefore m Hm).
    + apply first_success_none. intros n Hn.
      destruct (ci_starts_with o (skipn n s)) eqn:En; [|reflexivity].
      assert (i <= n).
      { destruct (Nat.le_gt_cases i n) as [|Hlt]; [assumption|].
        rewrite (Hbefore n Hlt) in En. discriminate. }
      rewrite skipn_skipn.
      replace (length o + n) with ((n - i) + (i + length o)) by lia.
      rewrite <- skipn_skipn, (ci_find_none_skipn _ _ _ Ec). reflexivity.
  - apply first_success_none. intros n Hn.
    rewrite ci_find_none in Eo. now rewrite (Eo n Hn).
Qed.

Lemma group1_section (s : str) (i b j e : nat) :
  group1 s (MatchObject i e (Some (b, b + j))) = firstn j (skipn b s).
Proof.
  unfold group1, slice. cbn [m_group1]. f_equal. lia.
Qed.

(** What [re.search] captures is the first section of the text. *)
Lemma search_first_section (o c s : str) :
  option_map (group1 s) (search true (section_re o c) s) =
    first_section o c s.
Proof.
  rewrite search_section. unfold first_section.
  destruct (ci_find o s) as [i|]; [|reflexivity].
  destruct (ci_find c _) as [j|]; [|reflexivity].
  cbv zeta. cbn [option_map]. now rewrite group1_section.
Qed.

End Sections.

Section ParseReasoning.
Import Spec Re CosmosClient.

Lemma ci_find_exists (p s : str) (n : nat) :
  n <= length s -> ci_starts_with p (skipn n s) = true ->
  exists i, ci_find p s = Some i /\ i <= n.
Proof.
  intros Hn H. destruct (ci_find p s) as [i|] eqn:E.
  - exists i. split; [reflexivity|].
    apply ci_find_some in E as [_ [_ E]].
    destruct (Nat.le_gt_cases i n) as [|Hlt]; [assumption|].
    rewrite (E n Hlt) in H. discriminate.
  - rewrite ci_find_none in E. rewrite (E n Hn) in H. discriminate.
Qed.

(** A text has a section exactly when it has a first section. *)
Lemma has_section_first (o c s : str) :
  has_section o c s <-> exists body, first_section o c s = Some body.
Proof.
  unfold first_section. split.
  - intros [pre [o' [body [c' [post [Hs [Ho Hc]]]]]]].
    pose proof (ci_eq_length Ho) as Lo.
    assert (Hlen : length s = length pre + length o + length body +
                              length c' + length post).
    { rewrite Hs, !length_app. lia. }
    destruct (ci_find_exists o s (n := length pre)) as [i [Ei Hi]].
    + lia.
    + rewrite Hs, skipn_app_exact. now apply ci_starts_with_app.
    + rewrite Ei.
      destruct (ci_find_exists c (skipn (i + length o) s)
                  (n := length pre + length body - i)) as [j [Ej _]].
      * rewrite length_skipn. lia.
      * rewrite skipn_skipn.
        replace (length pre + length body - i + (i + length o))
          with (length (pre ++ o' ++ body)) by (rewrite !length_app; lia).
        replace s with ((pre ++ o' ++ body) ++ c' ++ post)
          by (rewrite Hs, <- !app_assoc; reflexivity).
        rewrite skipn_app_exact. now apply ci_starts_with_app.
      * rewrite Ej. eauto.
  - destruct (ci_find o s) as [i|] eqn:Ei; [|intros [b H]; discriminate].
    destruct (ci_find c (skipn (i + length o) s)) as [j|] eqn:Ej;
      [|intros [b H]; discriminate].
    intros _.
    apply ci_find_some in Ei as [_ [Ei _]].
    apply ci_find_some in Ej as [_ [Ej _]].
    apply ci_starts_with_iff in Ei as [o' [Ei Ho]].
    apply ci_starts_with_iff in Ej as [c' [Ej Hc]].
    rewrite skipn_skipn, (Nat.add_comm (length o) i) in Ei.
    exists (firstn i s), o', (firstn j (skipn (i + length o) s)), c',
      (skipn (length c) (skipn j (skipn (i + length o) s))).
    repeat split; auto.
    rewrite <- Ej, firstn_skipn, <- Ei. symmetry. apply firstn_skipn.
Qed.

(** [parse_reasoning], read off the text. *)
Lemma parse_reasoning_first_sections (content : str) :
  parse_reasoning content =
    match first_section (L "<think>") (L "</think>") content,
          first_section (L "<answer>") (L "</answer>") content with
    | Some t, Some a => (Some (strip t), strip a, true)
    | _, _ => (None, strip content, false)
    end.
Proof.
  rewrite <- !search_first_section. unfold parse_reasoning.
  change think_re with (section_re (L "<think>") (L "</think>")).
  change answer_re with (section_re (L "<answer>") (L "</answer>")).
  destruct (search true (section_re (L "<think>") _) content);
    destruct (search true (section_re (L "<answer>") _) content);
    reflexivity.
Qed.

(** With an opening marker that is never closed on its own, the first
    section starts there: the reply encloses "b" in think markers, and the
    reasoning returned is the longer text from the first marker on. *)
Lemma parse_stray_opening_marker :
  let content := L "<think>a<think>b</think><answer>c</answer>" in
  encloses (L "<think>") (L "</think>") content (L "b") /\
  encloses (L "<answer>") (L "</answer>") content (L "c") /\
  parse_reasoning content = (Some (L "a<think>b"), L "c", true).
Proof.
  cbv zeta. repeat apply conj.
  - exists (L "<think>a"), (L "<think>"), (L "</think>"),
      (L "<answer>c</answer>"). repeat split; reflexivity.
  - exists (L "<think>a<think>b</think>"), (L "<answer>"), (L "</answer>"),
      []. repeat split; reflexivity.
  - vm_compute. reflexivity.
Qed.

(** The text of the section is what [first_section] computes. *)
Lemma section_text_first (o c s body : str) :
  section_text o c s body <-> first_section o c s = Some body.
Proof.
  unfold section_text, first_section. split.
  - intros [pre [o' [c' [post [Hs [Ho [Hc [Fo Fc]]]]]]]].
    rewrite Fo, <- (ci_eq_length Ho), <- length_app.
    replace s with ((pre ++ o') ++ body ++ c' ++ post)
      by (rewrite Hs, <- app_assoc; reflexivity).
    rewrite skipn_app_exact, Fc.
    now rewrite firstn_app, firstn_all, Nat.sub_diag, app_nil_r.
  - destruct (ci_find o s) as [i|] eqn:Ei; [|discriminate].
    destruct (ci_find c (skipn (i + length o) s)) as [j|] eqn:Ej;
      [|discriminate].
    intros [= <-].
    pose proof Ei as Fo. pose proof Ej as Fc.
    apply ci_find_some in Ei as [Li [Ei _]].
    apply ci_find_some in Ej as [Lj [Ej _]].
    apply ci_starts_with_iff in Ei as [o' [Ei Ho]].
    apply ci_starts_with_iff in Ej as [c' [Ej Hc]].
    rewrite skipn_skipn, (Nat.add_comm (length o) i) in Ei.
    set (rest := skipn (i + length o) s) in *.
    assert (Hrest : rest = firstn j rest ++ c' ++ skipn (length c) (skipn j rest)).
    { rewrite <- Ej. symmetry. apply firstn_skipn. }
    exists (firstn i s), o', c', (skipn (length c) (skipn j rest)).
    rewrite <- Hrest, <- Ei, firstn_skipn.
    rewrite !length_firstn, !Nat.min_l by assumption.
    repeat split; auto.
Qed.

(** A text has a section exactly when it has the text of a section. *)
Lemma has_section_text (o c s : str) :
  has_section o c s <-> exists body, section_text o c s body.
Proof.
  rewrite has_section_first.
  split; intros [body H]; exists body; now apply section_text_first.
Qed.

(** C3: a reply with a think section and an answer section, in either
    order and whatever the case of the markers and the lines in between,
    is parsed into the enclosed text of each section, trimmed, with the
    reasoning present and the flag set.  The section of each kind runs
    from the leftmost opening marker to the first closing marker after
    it. *)
Theorem C3_sections_extracted :
  forall content t a : str,
    section_text (L "<think>") (L "</think>") content t ->
    section_text (L "<answer>") (L "</answer>") content a ->
    parse_reasoning content = (Some (strip t), strip a, true).
Proof.
  intros content t a Ht Ha.
  apply section_text_first in Ht, Ha.
  now rewrite parse_reasoning_first_sections, Ht, Ha.
Qed.

(** Mixed case, several lines, the answer before the reasoning. *)
Lemma C3_sections_extracted_witness :
  parse_reasoning Samples.mixed_reply
  = (Some (L "it falls" ++ Samples.nl ++ L "as it should"), L "yes", true).
Proof.
  apply (@C3_sections_extracted Samples.mixed_reply
           (Samples.nl ++ L "it falls" ++ Samples.nl ++ L "as it should  ")
           (L " yes" ++ Samples.nl));
    apply section_text_first; vm_compute; reflexivity.
Defined.

(** C4: a reply that lacks the think section or the answer section is
    returned whole, trimmed, as the answer, with no reasoning and the
    flag unset. *)
Theorem C4_no_sections_fallback :
  forall content : str,
    ~ has_section (L "<think>") (L "</think>") content \/
    ~ has_section (L "<answer>") (L "</answer>") content ->
    parse_reasoning content = (None, strip content, false).
Proof.
  intros content H. rewrite parse_reasoning_first_sections.
  destruct (first_section (L "<think>") _ content) as [t|] eqn:Et;
    [|reflexivity].
  destruct (first_section (L "<answer>") _ content) as [a|] eqn:Ea;
    [|reflexivity].
  destruct H as [H|H]; exfalso; apply H, has_section_first; eauto.
Qed.

(** A reply with a think section and an answer marker that is never
    closed. *)
Lemma C4_no_sections_fallback_witness :
  parse_reasoning Samples.unclosed_reply
  = (None, L "<think>hm</think> <answer>yes", false).
Proof.
  apply (@C4_no_sections_fallback Samples.unclosed_reply).
  right. intros H. apply has_section_first in H as [body H].
  vm_compute in H. discriminate.
Defined.

End ParseReasoning.

(* ===================================================================== *)
(** * The batch run *)
(* ===================================================================== *)

Section Batch.
Import Spec VideoEvaluator IO.

Lemma interpret_verdict (output : str) :
  is_verdict (verdict_of (interpret output)).
Proof.
  unfold interpret, is_verdict.
  destruct (Re.search false assistant_re output) as [m|];
    cbn [verdict_of].
  - destruct (str_in (L "YES") _); [auto|].
    destruct (str_in (L "NO") _); auto.
  - auto.
Qed.

Lemma evaluate_all_value (w : env) (verbose : bool) (n i : nat)
      (v : str) (rest : list str) :
  value (evaluate_all w verbose n i (v :: rest)) =
    (let r := interpret (subprocess_run w (inference_cmd v)) in
     Record_ (path_name w v) v (verdict_of r) (answer_of r)
             (reasoning_of r) (now_isoformat w i))
    :: value (evaluate_all w verbose n (S i) rest).
Proof.
  cbn [evaluate_all]. unfold evaluate_video.
  destruct (interpret _) as [[[vd o] a] r].
  destruct (evaluate_all w verbose n (S i) rest) as [rows lg].
  destruct verbose; reflexivity.
Qed.

Lemma evaluate_all_rows (w : env) (verbose : bool) (n i : nat)
      (videos : list str) :
  let rows := value (evaluate_all w verbose n i videos) in
  length rows = length videos /\
  Forall (fun r => is_verdict (verdict r)) rows.
Proof.
  revert i. induction videos as [|v rest IH]; intros i; cbv zeta.
  - split; [reflexivity | constructor].
  - rewrite evaluate_all_value. destruct (IH (S i)) as [IHl IHv].
    split; [cbn [length]; now rewrite IHl|].
    constructor; [apply interpret_verdict | exact IHv].
Qed.

Lemma count_verdict_cons (v : str) (r : record) (df : list record) :
  count_verdict v (r :: df) =
    ((if str_eqb (verdict r) v then 1 else 0) + count_verdict v df)%Z.
Proof.
  unfold count_verdict. cbn [filter].
  destruct (str_eqb (verdict r) v); cbn [length]; lia.
Qed.

(** The three tallies share out the rows. *)
Lemma tallies_partition (df : list record) :
  Forall (fun r => is_verdict (verdict r)) df ->
  (count_verdict (L "PASS") df + count_verdict (L "FAIL") df +
   count_verdict (L "UNCLEAR") df = Z.of_nat (length df))%Z.
Proof.
  induction 1 as [|r df Hr _ IH]; [reflexivity|].
  rewrite !count_verdict_cons. cbn [length].
  destruct Hr as [-> | [-> | ->]]; cbn [str_eqb]; vm_compute str_eqb; lia.
Qed.

Lemma batch_evaluate_empty (w : env) (folder : str) (out : option str)
      (verbose : bool) :
  glob_mp4 w folder = [] ->
  batch_evaluate w folder out verbose =
    (None,
     match out with Some o => [Mkdir o] | None => [] end
     ++ [Print (NoMp4Found folder)]).
Proof.
  intros H. unfold batch_evaluate. rewrite H. now destruct out.
Qed.

Lemma batch_evaluate_rows (w : env) (folder : str) (out : option str)
      (verbose : bool) (df : list record) :
  value (batch_evaluate w folder out verbose) = Some df ->
  glob_mp4 w folder <> [] /\
  df = value (evaluate_all w verbose (length (glob_mp4 w folder)) 1
                           (glob_mp4 w folder)) /\
  In (Print (ShowSummary (summarize df)))
     (log (batch_evaluate w folder out verbose)) /\
  exists file, In (ToCsv file df) (log (batch_evaluate w folder out verbose)).
Proof.
  unfold batch_evaluate.
  destruct (glob_mp4 w folder) as [|v rest] eqn:E.
  - destruct out; discriminate.
  - set (videos := v :: rest).
    destruct (evaluate_all w verbose (length videos) 1 videos)
      as [rows lg] eqn:Er.
    unfold value, log, bind, emit, ret.
    destruct out as [o|]; cbn [fst snd];
      destruct (0 <? unclear (summarize rows))%Z; cbn [fst snd];
      intros [= <-];
      (split; [discriminate|]); (split; [reflexivity|]);
      (split; [|eexists]);
      rewrite ?in_app_iff; cbn [In]; rewrite ?in_app_iff; cbn [In];
      intuition eauto 10.
Qed.

(** C5: in the summary of a batch run the three tallies add up to the
    total, the total is not zero, and each percentage is its tally
    divided by the total and multiplied by 100. *)
Theorem C5_summary_invariant :
  forall (w : env) (folder : str) (out : option str) (verbose : bool)
         (df : list record),
    value (batch_evaluate w folder out verbose) = Some df ->
    let s := summarize df in
    In (Print (ShowSummary s)) (log (batch_evaluate w folder out verbose)) /\
    (passed s + failed s + unclear s = total s)%Z /\
    (total s = Z.of_nat (length df) /\ total s <> 0)%Z /\
    (passed_pct s == inject_Z (passed s) / inject_Z (total s) * inject_Z 100)%Q /\
    (failed_pct s == inject_Z (failed s) / inject_Z (total s) * inject_Z 100)%Q /\
    (unclear_pct s == inject_Z (unclear s) / inject_Z (total s) * inject_Z 100)%Q.
Proof.
  intros w folder out verbose df H s.
  apply batch_evaluate_rows in H as [Hne [Hdf [Hlog _]]].
  destruct (evaluate_all_rows w verbose (length (glob_mp4 w folder)) 1
              (glob_mp4 w folder)) as [Hlen Hv].
  rewrite <- Hdf in Hlen, Hv.
  split; [exact Hlog|]. split; [now apply tallies_partition|].
  split; [|repeat split; reflexivity].
  split; [reflexivity|]. cbn [total s summarize].
  destruct (glob_mp4 w folder); [congruence|].
  rewrite Hlen. cbn [length]. lia.
Qed.

(** The three-video folder: one PASS and two FAIL, the job without
    output being one of them. *)
Lemma C5_summary_invariant_witness :
  exists df,
    value (batch_evaluate Samples.three_videos (L "in") None false) = Some df /\
    map verdict df = [L "PASS"; L "FAIL"; L "FAIL"] /\
    let s := summarize df in
    (passed s + failed s + unclear s = total s)%Z /\
    (passed_pct s == 100 # 3)%Q.
Proof.
  eexists. split; [reflexivity|]. split; [vm_compute; reflexivity|].
  destruct (C5_summary_invariant Samples.three_videos (L "in") None false
              eq_refl) as [_ [Hsum [_ [Hp _]]]].
  split; [exact Hsum|]. rewrite Hp. vm_compute. reflexivity.
Defined.

(** C7: with no video in the input folder the batch run returns
    without a table: it prints that no MP4 file was found and writes no
    file. *)
Theorem C7_empty_folder :
  forall (w : env) (folder : str) (out : option str) (verbose : bool),
    glob_mp4 w folder = [] ->
    let r := batch_evaluate w folder out verbose in
    value r = None /\
    log r = match out with Some o => [Mkdir o] | None => [] end
            ++ [Print (NoMp4Found folder)] /\
    (forall file rows, ~ In (ToCsv file rows) (log r)).
Proof.
  intros w folder out verbose H r. subst r.
  rewrite (batch_evaluate_empty w folder out verbose H).
  repeat split.
  intros file rows Hin. unfold log in Hin. cbn [snd] in Hin.
  apply in_app_iff in Hin as [Hin|Hin].
  - destruct out; cbn [In] in Hin; [destruct Hin as [Hin|[]]|destruct Hin];
      discriminate.
  - destruct Hin as [Hin|[]]. discriminate.
Qed.

Lemma C7_empty_folder_witness :
  let r := batch_evaluate Samples.no_videos (L "in") None false in
  value r = None /\
  log r = [Print (NoMp4Found (L "in"))] /\
  (forall file rows, ~ In (ToCsv file rows) (log r)).
Proof.
  exact (C7_empty_folder Samples.no_videos (L "in") None false eq_refl).
Defined.

End Batch.

(* ===================================================================== *)
(** * The single-shot client *)
(* ===================================================================== *)

Section SingleShot.
Import Spec CosmosClient IO.

Lemma mem_In (x : str) (xs : list str) : mem x xs = true <-> In x xs.
Proof.
  unfold mem. rewrite existsb_exists. split.
  - intros [y [Hy E]]. apply str_eqb_eq in E. now subst.
  - intros H. exists x. split; [assumption | apply str_eqb_refl].
Qed.

Lemma mem_app_false (x : str) (xs ys : list str) :
  ~ In x (xs ++ ys) -> mem x xs = false /\ mem x ys = false.
Proof.
  intros H. split.
  - destruct (mem x xs) eqn:E; [|reflexivity].
    apply mem_In in E. exfalso. apply H, in_or_app. now left.
  - destruct (mem x ys) eqn:E; [|reflexivity].
    apply mem_In in E. exfalso. apply H, in_or_app. now right.
Qed.

(** C8: a path whose extension, in lower case, is neither a video nor
    an image extension gets no request: [process_file] returns nothing
    and its only effect is one error message, for the missing file when
    there is no such file and for the unsupported type otherwise. *)
Theorem C8_unsupported_extension :
  forall (w : env) (file_path : str) (prompt yaml_file : option str)
         (show_reasoning : bool),
    ~ In (lower (path_suffix w file_path))
         (VIDEO_EXTENSIONS ++ IMAGE_EXTENSIONS) ->
    let r := process_file w file_path prompt yaml_file show_reasoning in
    value r = None /\
    log r = [Print (if path_exists w file_path
                    then ErrUnsupported (lower (path_suffix w file_path))
                    else ErrFileNotFound file_path)] /\
    (forall url req, ~ In (Post url req) (log r)) /\
    (forall url, ~ In (Get url) (log r)).
Proof.
  intros w file_path prompt yaml_file show_reasoning H r.
  apply mem_app_false in H as [Hv Hi].
  assert (E : r = (None,
                   [Print (if path_exists w file_path
                           then ErrUnsupported (lower (path_suffix w file_path))
                           else ErrFileNotFound file_path)])).
  { subst r. unfold process_file. rewrite Hv, Hi.
    now destruct (path_exists w file_path). }
  rewrite E. unfold value, log. cbn [fst snd].
  repeat split; intros; intros [Hin|[]]; discriminate.
Qed.

Lemma C8_unsupported_extension_witness :
  let r := process_file Samples.answering (L "notes.txt") None None true in
  value r = None /\
  log r = [Print (ErrUnsupported (L ".txt"))] /\
  (forall url req, ~ In (Post url req) (log r)) /\
  (forall url, ~ In (Get url) (log r)).
Proof.
  apply (C8_unsupported_extension Samples.answering (L "notes.txt")
           None None true).
  vm_compute. intuition discriminate.
Defined.

Example supported_extension_is_sent :
  let r := process_file Samples.answering (L "clip.MP4") None None true in
  value r = Some (L "<think>t</think><answer>a</answer>") /\
  exists req, In (Post API_URL req) (log r).
Proof.
  split; [reflexivity|]. eexists. vm_compute. do 5 right. left. reflexivity.
Qed.

End SingleShot.

(* ===================================================================== *)
(** * Exit status *)
(* ===================================================================== *)

Section ExitStatus.
Import Spec IO.

(** A membership in a log that was computed. *)
Ltac in_log H :=
  cbn [In app fst snd] in H;
  repeat match type of H with
         | _ \/ _ => destruct H as [H|H]
         | False => destruct H
         end;
  try discriminate H;
  try (injection H as <-).

Lemma display_result_log (content : str) (show : bool) :
  exists m, CosmosClient.display_result content show
            = (tt, [CosmosClient.Print m]) /\
            is_result m = true.
Proof.
  unfold CosmosClient.display_result.
  destruct (CosmosClient.parse_reasoning content) as [[[t|] a] h];
    [destruct (h && show)%bool|]; eexists; split; reflexivity.
Qed.

(** Run the code: compute, name what [display_result] prints, and
    split on whatever the next step depends on. *)
Ltac branch :=
  repeat first
    [ progress cbn [fst snd]
    | match goal with
      | |- context [CosmosClient.display_result ?c ?s] =>
          let m := fresh "shown" in
          let E := fresh "E" in
          let H := fresh "Hshown" in
          destruct (display_result_log c s) as [m [E H]]; rewrite E
      end
    | match goal with
      | |- context [match ?x with _ => _ end] =>
          lazymatch x with
          | context [match _ with _ => _ end] => fail
          | _ => destruct x eqn:?
          end
      end ].

Lemma result_not_failure (m : CosmosClient.message) :
  is_result m = true -> is_failure m = false.
Proof. now destruct m. Qed.

(** A reply is returned exactly when it was shown, and never after an
    error message. *)
Lemma process_file_log (w : CosmosClient.env) (file_path : str)
      (prompt yaml_file : option str) (show : bool) :
  let r := CosmosClient.process_file w file_path prompt yaml_file show in
  (forall m, In (CosmosClient.Print m) (log r) ->
             is_failure m = true -> value r = None) /\
  (forall m, In (CosmosClient.Print m) (log r) ->
             is_result m = true -> value r <> None).
Proof.
  cbv zeta.
  unfold CosmosClient.process_file, CosmosClient.encode_and_send,
    CosmosClient.send_request, CosmosClient.load_yaml_prompt.
  unfold value, log, bind, emit, ret.
  branch;
    (split; intros m Hin Hm; in_log Hin; try discriminate;
     try reflexivity; try congruence;
     try (rewrite (result_not_failure _ Hshown) in Hm; discriminate)).
Qed.

(** No reply is returned when the request that was sent was not
    answered with a content. *)
Lemma process_file_unanswered (w : CosmosClient.env) (file_path : str)
      (prompt yaml_file : option str) (show : bool)
      (req : CosmosClient.request) :
  let r := CosmosClient.process_file w file_path prompt yaml_file show in
  In (CosmosClient.Post CosmosClient.API_URL req) (log r) ->
  unanswered w req -> value r = None.
Proof.
  cbv zeta.
  unfold CosmosClient.process_file, CosmosClient.encode_and_send,
    CosmosClient.send_request, CosmosClient.load_yaml_prompt, unanswered.
  unfold value, log, bind, emit, ret.
  branch; intros Hin Hno; try reflexivity;
    cbn [In app fst snd] in Hin;
    repeat match type of Hin with
           | _ \/ _ => destruct Hin as [Hin|Hin]
           | False => destruct Hin
           end;
    try discriminate Hin;
    injection Hin as <-; exfalso; eapply Hno; eassumption.
Qed.

(** A reply is returned only when the file was there and was read, and
    the service answered the request that carries its bytes. *)
Lemma process_file_reply (w : CosmosClient.env) (file_path : str)
      (prompt yaml_file : option str) (show : bool) (c : str) :
  value (CosmosClient.process_file w file_path prompt yaml_file show)
    = Some c ->
  replied w file_path
          (CosmosClient.process_file w file_path prompt yaml_file show) c.
Proof.
  unfold replied, carries.
  unfold CosmosClient.process_file, CosmosClient.encode_and_send,
    CosmosClient.send_request, CosmosClient.load_yaml_prompt.
  unfold value, log, bind, emit, ret.
  branch; intros [= <-];
    (split; [reflexivity|]);
    (split; [now apply negb_false_iff|]);
    eexists; eexists;
    (split; [reflexivity|]);
    (split; [cbn [In app fst snd];
             repeat first [left; reflexivity | right]|]);
    (split; [cbn [CosmosClient.content_url];
             first [left; reflexivity | right; eexists; reflexivity]|]);
    (split; [eassumption|]);
    exists shown;
    (split; [cbn [In app fst snd];
             repeat first [left; reflexivity | right]
            | assumption]).
Qed.

Lemma run_file_processed (w : CosmosClient.env) (args : list str)
      (yaml_file : option str) (show : bool) :
  value (CosmosClient.run_file w args yaml_file show) = 0%Z ->
  processed w args (CosmosClient.run_file w args yaml_file show).
Proof.
  unfold CosmosClient.run_file, processed.
  destruct args as [|file_path rest]; [discriminate|].
  set (prompt := if (_ && _)%bool then _ else _).
  pose proof (@process_file_reply w file_path prompt yaml_file show) as H.
  destruct (CosmosClient.process_file w file_path prompt yaml_file show)
    as [[c|] lg] eqn:E; unfold value, log, bind, ret in *;
    cbn [fst snd] in *; [|discriminate].
  intros _. exists file_path, prompt, yaml_file, show, c.
  split; [now left|]. rewrite E. cbn [fst snd].
  split; [apply app_nil_r | now apply H].
Qed.

Lemma processed_incl (w : CosmosClient.env) (xs ys : list str)
      (r : io CosmosClient.event Z) :
  incl xs ys -> processed w xs r -> processed w ys r.
Proof.
  intros Hi [f [p [y [s [c [Hin H]]]]]].
  exists f, p, y, s, c. split; [now apply Hi | exact H].
Qed.

Lemma run_file_status (w : CosmosClient.env) (args : list str)
      (yaml_file : option str) (show : bool) :
  status_follows_log w (CosmosClient.run_file w args yaml_file show).
Proof.
  unfold status_follows_log, CosmosClient.run_file.
  destruct args as [|file_path rest].
  - unfold value, log, bind, emit, ret. cbn [fst snd].
    repeat split; auto; intros m Hin Hm; in_log Hin; discriminate.
  - set (prompt := if (_ && _)%bool then _ else _).
    pose proof (process_file_log w file_path prompt yaml_file show) as H.
    pose proof (@process_file_unanswered w file_path prompt yaml_file show)
      as Hu.
    cbv zeta in H, Hu.
    destruct (CosmosClient.process_file w file_path prompt yaml_file show)
      as [[c|] lg].
    + unfold value, log, bind, ret in *. cbn [fst snd] in *.
      rewrite app_nil_r. destruct H as [Hf Hr].
      repeat split; auto.
      * intros m Hin Hm. specialize (Hf m Hin Hm). discriminate.
      * intros req Hin Hno. specialize (Hu req Hin Hno). discriminate.
    + unfold value, log, bind, ret in *. cbn [fst snd] in *.
      rewrite app_nil_r. destruct H as [Hf Hr].
      repeat split; auto. intros m Hin Hm.
      now destruct (Hr m Hin Hm).
Qed.

(** A run that sends nothing and shows no reply has the status that its
    messages ask for. *)
Ltac silent_status :=
  unfold status_follows_log, value, log, bind, emit, ret;
  cbn [fst snd]; repeat split; auto;
  intros m Hin Hm; in_log Hin; discriminate.

Lemma client_main_status (w : CosmosClient.env) (argv : list str) :
  asks_for test_words argv = false ->
  status_follows_log w (CosmosClient.main w argv).
Proof.
  unfold CosmosClient.main, asks_for, test_words.
  destruct argv as [|prog [|argv1 rest]]; try (intros _; silent_status).
  cbn [nth_error]. intros Ht.
  destruct (CosmosClient.mem argv1 [L "-h"; L "--help"; L "help"]);
    [silent_status|].
  rewrite Ht.
  destruct (CosmosClient.mem (L "--prompt-file") _).
  - destruct (_ <? _); [apply run_file_status | silent_status].
  - apply run_file_status.
Qed.

(** With status 0 the client gave help or, the connection test apart,
    processed a file named on the command line and got a reply. *)
Lemma client_main_processed (w : CosmosClient.env) (argv : list str) :
  asks_for test_words argv = false ->
  value (CosmosClient.main w argv) = 0%Z ->
  asks_for help_words argv = true \/
  processed w (tl argv) (CosmosClient.main w argv).
Proof.
  unfold CosmosClient.main, asks_for, test_words, help_words.
  destruct argv as [|prog [|argv1 rest]]; try discriminate.
  cbn [nth_error]. intros Ht.
  destruct (CosmosClient.mem argv1 [L "-h"; L "--help"; L "help"]);
    [now left|].
  rewrite Ht.
  set (args := filter _ _).
  assert (Hargs : incl args (tl (prog :: argv1 :: rest))).
  { intros x Hx. now apply filter_In in Hx as [Hx _]. }
  intros H. right.
  destruct (CosmosClient.mem (L "--prompt-file") args).
  - destruct (_ <? _); [|discriminate].
    apply run_file_processed in H.
    revert H. apply processed_incl.
    intros x Hin. apply Hargs.
    apply in_app_iff in Hin as [Hin|Hin].
    + rewrite <- (firstn_skipn (CosmosClient.index (L "--prompt-file") args) args).
      apply in_or_app. now left.
    + rewrite <- (firstn_skipn (CosmosClient.index (L "--prompt-file") args + 2) args).
      apply in_or_app. now right.
  - apply run_file_processed in H.
    revert H. now apply processed_incl.
Qed.

Lemma client_main_help (w : CosmosClient.env) (argv : list str) :
  asks_for help_words argv = true ->
  CosmosClient.main w argv = (0%Z, [CosmosClient.Print CosmosClient.Usage]).
Proof.
  unfold CosmosClient.main, asks_for, help_words.
  destruct argv as [|prog [|argv1 rest]]; try discriminate.
  cbn [nth_error]. now intros ->.
Qed.

(** C6 (as stated, at a run): the batch evaluator finds no matching
    file in its input folder and the process ends with status 0. *)
Lemma C6_no_matching_files_status_zero :
  VideoEvaluator.glob_mp4 Samples.no_videos
    (VideoEvaluator.input_folder Samples.batch_args) = [] /\
  value (VideoEvaluator.main Samples.no_videos Samples.batch_args) = 0%Z /\
  ~ (value (VideoEvaluator.main Samples.no_videos Samples.batch_args) <> 0%Z).
Proof.
  repeat split. intros H. now apply H.
Qed.

(** C6 (amended): the batch evaluator ends with status 0 whenever the
    batch run returns, with or without matching files.  The connection
    test apart, the single-shot client ends with status 0 or 1: with 1
    whenever it prints an error message and whenever the request that
    it sent was not answered with a content; with 0 whenever it shows a
    reply and when it is asked for help; and status 0 without a request
    for help means that the run processed a file named on the command
    line: the file is there, its bytes were read, the request that
    carries them was sent, and the service answered it with the reply
    that was shown. *)
Theorem C6_exit_status :
  (forall (w : VideoEvaluator.env) (args : VideoEvaluator.arguments),
      value (VideoEvaluator.main w args) = 0%Z) /\
  (forall (w : CosmosClient.env) (argv : list str),
      asks_for test_words argv = false ->
      let r := CosmosClient.main w argv in
      (value r = 0 \/ value r = 1)%Z /\
      (forall m, In (CosmosClient.Print m) (log r) ->
                 is_failure m = true -> value r = 1%Z) /\
      (forall req,
          In (CosmosClient.Post CosmosClient.API_URL req) (log r) ->
          unanswered w req -> value r = 1%Z) /\
      (forall m, In (CosmosClient.Print m) (log r) ->
                 is_result m = true -> value r = 0%Z) /\
      (asks_for help_words argv = true -> value r = 0%Z) /\
      (value r = 0%Z ->
       asks_for help_words argv = true \/ processed w (tl argv) r)).
Proof.
  split.
  - intros w args. unfold VideoEvaluator.main.
    destruct (VideoEvaluator.batch_evaluate w _ _ _) as [[df|] lg];
      reflexivity.
  - intros w argv Ht r.
    destruct (client_main_status w argv Ht) as [H01 [Hf [Hu Hr]]].
    repeat split; auto.
    + intros Hh. unfold r. now rewrite (client_main_help w argv Hh).
    + now apply client_main_processed.
Qed.

(** A reply shown, a service that is down, a file of the wrong type. *)
Lemma C6_exit_status_witness :
  (asks_for test_words [L "cosmos_client.py"; L "clip.mp4"] = false /\
   value (CosmosClient.main Samples.answering
            [L "cosmos_client.py"; L "clip.mp4"]) = 0%Z /\
   processed Samples.answering [L "clip.mp4"]
     (CosmosClient.main Samples.answering
        [L "cosmos_client.py"; L "clip.mp4"])) /\
  value (CosmosClient.main Samples.unreachable
           [L "cosmos_client.py"; L "clip.mp4"]) = 1%Z /\
  value (CosmosClient.main Samples.answering
           [L "cosmos_client.py"; L "notes.txt"]) = 1%Z.
Proof.
  destruct C6_exit_status as [_ H].
  split; [|split].
  - destruct (H Samples.answering [L "cosmos_client.py"; L "clip.mp4"]
                eq_refl) as [_ [_ [_ [H0 [_ Hp]]]]].
    assert (Hv : value (CosmosClient.main Samples.answering
                          [L "cosmos_client.py"; L "clip.mp4"]) = 0%Z).
    { apply (H0 (CosmosClient.ShowReasoningAndAnswer (L "t") (L "a")));
        [vm_compute; tauto | reflexivity]. }
    split; [reflexivity|]. split; [exact Hv|].
    destruct (Hp Hv) as [Hh | Hd]; [discriminate Hh | exact Hd].
  - destruct (H Samples.unreachable [L "cosmos_client.py"; L "clip.mp4"]
                eq_refl) as [_ [H1 _]].
    apply (H1 CosmosClient.ErrConnection); [vm_compute; tauto | reflexivity].
  - destruct (H Samples.answering [L "cosmos_client.py"; L "notes.txt"]
                eq_refl) as [_ [H1 _]].
    apply (H1 (CosmosClient.ErrUnsupported (L ".txt")));
      [vm_compute; tauto | reflexivity].
Defined.

(** The connection test ends with status 0 also when the service is
    down. *)
Example test_mode_status :
  CosmosClient.main Samples.unreachable [L "cosmos_client.py"; L "test"]
  = (0%Z, [CosmosClient.Print CosmosClient.Testing;
           CosmosClient.Get (L "http://10.0.0.46:8000/v1/models");
           CosmosClient.Print CosmosClient.ConnectionFailed]).
Proof. reflexivity. Qed.

End ExitStatus.


(* ===================================================================== *)
(** * The batch run, job by job *)
(* ===================================================================== *)

Section BatchRun.
Import Spec Extra VideoEvaluator IO.

Lemma evaluate_all_run (w : env) (verbose : bool) (n i : nat)
      (videos : list str) :
  evaluate_all w verbose n i videos =
    (rows_from w i videos, jobs_log w verbose n i videos).
Proof.
  revert i. induction videos as [|v rest IH]; intros i; [reflexivity|].
  cbn [evaluate_all rows_from jobs_log]. rewrite IH.
  unfold job_log, row_of.
  destruct (evaluate_video (subprocess_run w) v) as [[[vd o] a] r].
  unfold bind, emit, ret.
  destruct verbose; cbn [fst snd app verdict_of answer_of reasoning_of
                         video answer verdict reasoning];
    rewrite ?app_nil_r; reflexivity.
Qed.

(** The whole run on a folder that holds at least one video. *)
Lemma batch_evaluate_run (w : env) (folder : str) (out : option str)
      (verbose : bool) :
  glob_mp4 w folder <> [] ->
  let videos := glob_mp4 w folder in
  let df := rows_from w 1 videos in
  let s := summarize df in
  batch_evaluate w folder out verbose =
    (Some df,
     match out with Some o => [Mkdir o] | None => [] end
     ++ [Print (Processing (length videos) folder);
         Print (OutputWillBeSaved (destination folder out))]
     ++ jobs_log w verbose (length videos) 1 videos
     ++ [ToCsv (csv_file w folder out) df;
         Print (ShowSummary s);
         Print (ListPassed (names_with (L "PASS") df));
         Print (ListFailed (names_with (L "FAIL") df))]
     ++ (if (0 <? unclear s)%Z
         then [Print (ListUnclear (names_with (L "UNCLEAR") df))]
         else [])
     ++ [Print (ResultsSaved (csv_file w folder out))]).
Proof.
  intros Hne videos df s. unfold batch_evaluate. fold videos.
  destruct videos as [|v rest] eqn:E; [contradiction|].
  rewrite evaluate_all_run. fold df. subst s.
  unfold csv_file, destination, bind, emit, ret.
  destruct out as [o|]; cbn [fst snd];
    destruct (0 <? unclear (summarize df))%Z; cbn [fst snd app];
    rewrite ?app_nil_r, <- ?app_assoc; reflexivity.
Qed.

Lemma rows_from_paths (w : env) (i : nat) (vs : list str) :
  map video_path (rows_from w i vs) = vs.
Proof.
  revert i. induction vs as [|v rest IH]; intros i; [reflexivity|].
  cbn [rows_from map]. now rewrite IH.
Qed.

Lemma rows_from_nth (w : env) (i k : nat) (vs : list str) (v : str) :
  nth_error vs k = Some v ->
  nth_error (rows_from w i vs) k = Some (row_of w (i + k) v).
Proof.
  revert i k. induction vs as [|v0 rest IH]; intros i k H.
  - destruct k; discriminate.
  - destruct k as [|k]; cbn [nth_error rows_from] in *.
    + injection H as ->. now rewrite Nat.add_0_r.
    + rewrite Nat.add_succ_r. now apply (IH (S i)).
Qed.

Lemma batch_evaluate_table (w : env) (folder : str) (out : option str)
      (verbose : bool) (df : list record) :
  value (batch_evaluate w folder out verbose) = Some df ->
  glob_mp4 w folder <> [] /\ df = rows_from w 1 (glob_mp4 w folder).
Proof.
  intros H.
  destruct (glob_mp4 w folder) as [|v rest] eqn:E.
  - rewrite (batch_evaluate_empty w folder out verbose E) in H. discriminate.
  - assert (Hne : glob_mp4 w folder <> []) by (rewrite E; discriminate).
    rewrite (batch_evaluate_run w folder out verbose Hne) in H.
    rewrite E in H. injection H as <-. split; [discriminate | reflexivity].
Qed.

(** X1: the table of a batch run has one row per video, in the order of
    the listing: row [k] carries the path and the name of video [k], the
    verdict, answer and reasoning that [evaluate_video] gives for it, and
    the time of job [k+1]. *)
Theorem X1_one_row_per_video :
  forall (w : env) (folder : str) (out : option str) (verbose : bool)
         (df : list record),
    value (batch_evaluate w folder out verbose) = Some df ->
    map video_path df = glob_mp4 w folder /\
    forall k v,
      nth_error (glob_mp4 w folder) k = Some v ->
      nth_error df k = Some (row_of w (S k) v).
Proof.
  intros w folder out verbose df H.
  apply batch_evaluate_table in H as [_ ->].
  split; [apply rows_from_paths|].
  intros k v Hk. apply (rows_from_nth w 1 _ _ Hk).
Qed.

Lemma X1_one_row_per_video_witness :
  exists df,
    value (batch_evaluate Samples.three_videos (L "in") None false) = Some df /\
    map video_path df = [L "in/a.mp4"; L "in/b.mp4"; L "in/c.mp4"] /\
    map video df = [L "a.mp4"; L "b.mp4"; L "c.mp4"] /\
    nth_error df 1 = Some (row_of Samples.three_videos 2 (L "in/b.mp4")).
Proof.
  eexists. split; [reflexivity|].
  destruct (@X1_one_row_per_video Samples.three_videos (L "in") None false _
              eq_refl) as [Hp Hk].
  split; [exact Hp|]. split; [vm_compute; reflexivity|].
  apply (Hk 1 (L "in/b.mp4")). reflexivity.
Defined.

Lemma jobs_log_no_csv (w : env) (verbose : bool) (n i : nat)
      (vs : list str) :
  filter is_to_csv (jobs_log w verbose n i vs) = [].
Proof.
  revert i. induction vs as [|v rest IH]; intros i; [reflexivity|].
  cbn [jobs_log]. rewrite filter_app, IH.
  unfold job_log. now destruct verbose.
Qed.

(** X2: a batch run writes the table exactly once: the file is
    [evaluation_<time>.csv] in the output folder, or in the input folder
    when no output folder is given, and it holds the rows that the run
    returns; a run that returns no table writes nothing. *)
Theorem X2_table_written_once :
  forall (w : env) (folder : str) (out : option str) (verbose : bool),
    let r := batch_evaluate w folder out verbose in
    filter is_to_csv (log r) =
      match value r with
      | Some df =>
          [ToCsv (path_join w (match out with Some o => o | None => folder end)
                            (L "evaluation_" ++ now_strftime w ++ L ".csv"))
                 df]
      | None => []
      end.
Proof.
  intros w folder out verbose r. subst r.
  destruct (glob_mp4 w folder) as [|v rest] eqn:E.
  - rewrite (batch_evaluate_empty w folder out verbose E).
    now destruct out.
  - assert (Hne : glob_mp4 w folder <> []) by (rewrite E; discriminate).
    rewrite (batch_evaluate_run w folder out verbose Hne).
    unfold value, log. cbn [fst snd].
    rewrite !filter_app, jobs_log_no_csv.
    destruct out; destruct (0 <? _)%Z; reflexivity.
Qed.

Lemma jobs_log_quiet (w : env) (n i : nat) (vs : list str) :
  filter (fun e => negb (is_show_reasoning e)) (jobs_log w true n i vs)
  = jobs_log w false n i vs.
Proof.
  revert i. induction vs as [|v rest IH]; intros i; [reflexivity|].
  cbn [jobs_log]. rewrite filter_app, IH. unfold job_log.
  cbn [filter app is_show_reasoning negb]. reflexivity.
Qed.

(** X3: the verbose switch changes nothing but the progress output: the
    table returned is the same, and the log of a verbose run without its
    reasoning snippets is the log of the quiet run. *)
Theorem X3_verbose_only_prints :
  forall (w : env) (folder : str) (out : option str),
    value (batch_evaluate w folder out true)
    = value (batch_evaluate w folder out false) /\
    filter (fun e => negb (is_show_reasoning e))
           (log (batch_evaluate w folder out true))
    = log (batch_evaluate w folder out false).
Proof.
  intros w folder out.
  destruct (glob_mp4 w folder) as [|v rest] eqn:E.
  - rewrite !(batch_evaluate_empty w folder out _ E).
    split; [reflexivity|]. now destruct out.
  - assert (Hne : glob_mp4 w folder <> []) by (rewrite E; discriminate).
    rewrite !(batch_evaluate_run w folder out _ Hne).
    split; [reflexivity|]. unfold log. cbn [snd].
    rewrite !filter_app, jobs_log_quiet.
    destruct out; destruct (0 <? _)%Z; reflexivity.
Qed.

Lemma names_with_cons (v : str) (r : record) (df : list record) :
  names_with v (r :: df) =
    (if str_eqb (verdict r) v then [video r] else []) ++ names_with v df.
Proof.
  unfold names_with. cbn [filter]. now destruct (str_eqb (verdict r) v).
Qed.

Lemma names_partition (df : list record) :
  Forall (fun r => is_verdict (verdict r)) df ->
  Permutation (names_with (L "PASS") df ++ names_with (L "FAIL") df ++
               names_with (L "UNCLEAR") df)
              (map video df).
Proof.
  induction 1 as [|r df Hr _ IH]; [constructor|].
  rewrite !names_with_cons. cbn [map].
  destruct Hr as [-> | [-> | ->]]; vm_compute str_eqb; cbn [app].
  - now constructor.
  - apply Permutation_sym, Permutation_cons_app, Permutation_sym, IH.
  - apply Permutation_sym.
    rewrite app_assoc. apply Permutation_cons_app.
    rewrite <- app_assoc. apply Permutation_sym, IH.
Qed.

(** X4: the three lists of names that close a batch run share out the
    videos: every row of the table is named in exactly one of them. *)
Theorem X4_name_lists_share_out_rows :
  forall (w : env) (folder : str) (out : option str) (verbose : bool)
         (df : list record),
    value (batch_evaluate w folder out verbose) = Some df ->
    In (Print (ListPassed (names_with (L "PASS") df)))
       (log (batch_evaluate w folder out verbose)) /\
    In (Print (ListFailed (names_with (L "FAIL") df)))
       (log (batch_evaluate w folder out verbose)) /\
    (names_with (L "UNCLEAR") df <> [] ->
     In (Print (ListUnclear (names_with (L "UNCLEAR") df)))
        (log (batch_evaluate w folder out verbose))) /\
    Permutation (names_with (L "PASS") df ++ names_with (L "FAIL") df ++
                 names_with (L "UNCLEAR") df)
                (map video df).
Proof.
  intros w folder out verbose df H.
  pose proof (batch_evaluate_table _ _ _ _ H) as [Hne Hdf].
  pose proof (batch_evaluate_run w folder out verbose Hne) as Hrun.
  cbv zeta in Hrun. rewrite <- Hdf in Hrun. rewrite Hrun.
  unfold log. cbn [snd].
  assert (Hv : Forall (fun r => is_verdict (verdict r)) df).
  { destruct (evaluate_all_rows w verbose (length (glob_mp4 w folder)) 1
                (glob_mp4 w folder)) as [_ Hv].
    cbv zeta in Hv. rewrite evaluate_all_run in Hv. unfold value in Hv.
    cbn [fst] in Hv. now rewrite <- Hdf in Hv. }
  repeat split.
  - rewrite !in_app_iff. cbn [In]. tauto.
  - rewrite !in_app_iff. cbn [In]. tauto.
  - intros Hu.
    assert (Hpos : (0 <? unclear (summarize df))%Z = true).
    { apply Z.ltb_lt. cbn [unclear summarize]. unfold count_verdict.
      unfold names_with in Hu.
      destruct (filter _ df); [contradiction | cbn [length]; lia]. }
    rewrite Hpos, !in_app_iff. cbn [In]. tauto.
  - now apply names_partition.
Qed.

Lemma X4_name_lists_share_out_rows_witness :
  exists df,
    value (batch_evaluate Samples.three_videos (L "in") None false) = Some df /\
    names_with (L "PASS") df = [L "a.mp4"] /\
    names_with (L "FAIL") df = [L "b.mp4"; L "c.mp4"] /\
    Permutation (names_with (L "PASS") df ++ names_with (L "FAIL") df ++
                 names_with (L "UNCLEAR") df)
                (map video df).
Proof.
  eexists. split; [reflexivity|].
  split; [vm_compute; reflexivity|]. split; [vm_compute; reflexivity|].
  apply (@X4_name_lists_share_out_rows Samples.three_videos (L "in") None
           false _ eq_refl).
Defined.

End BatchRun.


(* ===================================================================== *)
(** * The reasoning of a transcript, read off the text *)
(* ===================================================================== *)

Section ReasoningText.
Import Spec Extra Re VideoEvaluator.

Lemma space_not_A (c : ascii) :
  Char.is_space c = true -> Ascii.eqb "A"%char c = false.
Proof.
  intros H. destruct (Ascii.eqb "A"%char c) eqn:E; [|reflexivity].
  apply Ascii.eqb_eq in E. subst c. discriminate.
Qed.

Lemma starts_with_length (p s : str) :
  starts_with p s = true -> length p <= length s.
Proof.
  intros H. apply starts_with_iff in H as [r ->]. rewrite length_app. lia.
Qed.

(** How the pattern of the reasoning ends a block at [s]. *)
Lemma run_block_end (s : str) (pos p : nat) (cap : capture) :
  run false
      (Alt (Seq (Lit (L "--------------------"))
                (Seq (StarG Char.is_space) (Lit (L "Assistant:"))))
           Eos)
      s p cap (fun _ e c => Some (MatchObject pos e c))
  = if ends_block s then Some (MatchObject pos (block_end_pos s p) cap)
    else None.
Proof.
  unfold ends_block, block_end_pos, separator_follows, separator.
  cbn [run]. rewrite eat_exact.
  destruct (starts_with (L "--------------------") s) eqn:Es.
  - change (length (L "--------------------")) with 20.
    rewrite star_greedy_commit.
    + rewrite eat_exact. change (length (L "Assistant:")) with 10.
      cbn [andb].
      destruct (starts_with (L "Assistant:") _); [reflexivity|].
      apply starts_with_length in Es.
      change (length (L "--------------------")) with 20 in Es.
      destruct s as [|c1 [|c2 s]]; cbn [length] in Es; try lia.
      reflexivity.
    + intros _ n Hn.
      destruct (skipn_in_run _ _ Hn) as [c [rest [-> Hc]]].
      rewrite eat_exact.
      change (L "Assistant:") with ("A"%char :: L "ssistant:").
      cbn [starts_with]. now rewrite (space_not_A _ Hc).
  - cbn [andb orb]. destruct s as [|c [|c2 s]]; reflexivity.
Qed.

Lemma block_end_found (r : str) (b : nat) :
  first_success (guard ends_block) r b = Some (b + block_length r) /\
  block_length r <= length r /\
  ends_block (skipn (block_length r) r) = true /\
  forall m, m < block_length r -> ends_block (skipn m r) = false.
Proof.
  unfold block_length. rewrite (first_success_guard_shift ends_block r b).
  destruct (first_success (guard ends_block) r 0) as [j|] eqn:E.
  - split; [reflexivity|].
    apply first_success_some in E as [n [Hn [H Hm]]]. unfold guard in *.
    destruct (ends_block (skipn n r)) eqn:En; [|discriminate].
    injection H as <-. cbn [Nat.add]. repeat split; auto.
    intros m Hlt. specialize (Hm m Hlt).
    now destruct (ends_block (skipn m r)).
  - exfalso. rewrite first_success_none in E.
    specialize (E (length r) (Nat.le_refl _)).
    rewrite skipn_all in E. discriminate.
Qed.

(** Where the pattern of the reasoning matches at the head of [s], and
    what it captures. *)
Lemma match_at_reasoning_exact (s : str) (pos : nat) :
  match_at false reasoning_re s pos =
    if starts_with (L "Reasoning:") s then
      let r := drop_while Char.is_space (skipn 10 s) in
      let b := pos + 10 + length (take_while Char.is_space (skipn 10 s)) in
      let e := b + block_length r in
      Some (MatchObject pos (block_end_pos (skipn (block_length r) r) e)
                        (Some (b, e)))
    else None.
Proof.
  unfold match_at, reasoning_re. cbn [run]. rewrite eat_exact.
  destruct (starts_with (L "Reasoning:") s); [|reflexivity].
  change (length (L "Reasoning:")) with 10.
  set (k := fun (s' : str) (pos' : nat) (cap' : capture) => _).
  assert (Hk : forall s' pos', k s' pos' None =
             Some (MatchObject pos
                     (block_end_pos (skipn (block_length s') s')
                                    (pos' + block_length s'))
                     (Some (pos', pos' + block_length s')))).
  { intros s' pos'. unfold k. rewrite star_lazy_any.
    rewrite (first_success_ext _
      (fun s2 p => if ends_block s2
                   then Some ((fun s3 p3 =>
                          MatchObject pos (block_end_pos s3 p3)
                                      (Some (pos', p3))) s2 p)
                   else None)).
    - rewrite first_success_guard.
      destruct (block_end_found s' pos') as [-> _].
      now replace (pos' + block_length s' - pos') with (block_length s') by lia.
    - intros s2 p. apply run_block_end. }
  rewrite star_greedy_commit.
  - now rewrite Hk.
  - rewrite Hk. discriminate.
Qed.

(** The search for the reasoning starts at the first label. *)
Lemma search_reasoning (output : str) :
  option_map (group1 output) (search false reasoning_re output) =
    match find (L "Reasoning:") output with
    | None => None
    | Some i =>
        let r := drop_while Char.is_space (skipn (i + 10) output) in
        Some (firstn (block_length r) r)
    end.
Proof.
  unfold search, find. rewrite search_from_scan, find_from_scan.
  rewrite (first_success_ext _ _ match_at_reasoning_exact).
  rewrite first_success_guard.
  destruct (first_success (guard _) output 0) as [i|]; [|reflexivity].
  rewrite Nat.sub_0_r. cbv zeta. cbn [option_map].
  unfold group1, slice. cbn [m_group1]. f_equal.
  rewrite skipn_skipn.
  set (u := skipn (10 + i) output).
  replace (i + 10 + length (take_while Char.is_space u) + _
           - (i + 10 + length (take_while Char.is_space u)))
    with (block_length (drop_while Char.is_space u)) by lia.
  replace (i + 10 + length (take_while Char.is_space u))
    with (length (take_while Char.is_space u) + (10 + i)) by lia.
  rewrite <- (skipn_skipn _ (10 + i) output). fold u.
  rewrite skipn_take_while. subst u. now rewrite (Nat.add_comm i 10).
Qed.

(** The reasoning of a transcript: the text from the white space after
    the first label up to the first separator before an answer, or up to
    the end, trimmed. *)
Lemma reasoning_of_interpret (output : str) :
  reasoning_of (interpret output) =
    match find (L "Reasoning:") output with
    | None => L "N/A"
    | Some i =>
        let r := drop_while Char.is_space (skipn (i + 10) output) in
        strip (firstn (block_length r) r)
    end.
Proof.
  pose proof (search_reasoning output) as H.
  unfold interpret.
  destruct (search false reasoning_re output) as [m|];
    destruct (find (L "Reasoning:") output) as [i|];
    cbn [option_map] in H; try discriminate;
    destruct (search false assistant_re output); cbn [reasoning_of];
    try reflexivity; injection H as ->; reflexivity.
Qed.

(** *** Trimming *)

Lemma lstrip_drop_while (s : str) : lstrip s = drop_while Char.is_space s.
Proof.
  induction s as [|c s IH]; simpl; [reflexivity|].
  now destruct (Char.is_space c).
Qed.

Lemma drop_while_idem (p : ascii -> bool) (s : str) :
  drop_while p (drop_while p s) = drop_while p s.
Proof.
  induction s as [|c s IH]; simpl; [reflexivity|].
  destruct (p c) eqn:E; [exact IH | simpl; now rewrite E].
Qed.

Lemma strip_drop_while (s : str) :
  strip (drop_while Char.is_space s) = strip s.
Proof.
  unfold strip. now rewrite !lstrip_drop_while, drop_while_idem.
Qed.

Lemma rstrip_app_space (y : str) (c : ascii) :
  Char.is_space c = true -> rstrip (y ++ [c]) = rstrip y.
Proof.
  intros H. unfold rstrip. rewrite rev_app_distr. simpl. now rewrite H.
Qed.

Lemma lstrip_app_space (x : str) (c : ascii) :
  Char.is_space c = true ->
  lstrip (x ++ [c]) = [] /\ lstrip x = [] \/
  lstrip (x ++ [c]) = lstrip x ++ [c].
Proof.
  intros H. induction x as [|a x IH]; simpl.
  - left. now rewrite H.
  - destruct (Char.is_space a); [exact IH | now right].
Qed.

(** A white space at the end of a text is trimmed away. *)
Lemma strip_app_space (x : str) (c : ascii) :
  Char.is_space c = true -> strip (x ++ [c]) = strip x.
Proof.
  intros H. unfold strip.
  destruct (@lstrip_app_space x c H) as [[-> ->] | ->]; [reflexivity|].
  now apply (@rstrip_app_space _ c).
Qed.

Lemma drop_while_app_stop (p : ascii -> bool) (x y : str) :
  match y with
  | c :: _ => p c = false
  | [] => True
  end ->
  drop_while p (x ++ y) = drop_while p x ++ y.
Proof.
  intros H. induction x as [|a x IH]; simpl.
  - destruct y as [|c y]; [reflexivity | simpl; now rewrite H].
  - now destruct (p a).
Qed.

Lemma str_in_false_skipn (p s : str) (n : nat) :
  str_in p s = false -> starts_with p (skipn n s) = false.
Proof.
  intros H. destruct (starts_with p (skipn n s)) eqn:E; [|reflexivity].
  apply starts_with_iff in E as [rest E].
  assert (Ho : occurs p s).
  { exists (firstn n s), rest. now rewrite <- E, firstn_skipn. }
  apply str_in_iff in Ho. congruence.
Qed.

Lemma is_eos_short (s : str) : is_eos s = true -> length s <= 1.
Proof.
  destruct s as [|c [|c2 s]]; cbn [is_eos length]; intros H;
    try lia; discriminate.
Qed.

(** X5: when no separator line follows the first "Reasoning:" label, the
    recorded reasoning is all the text after that label, trimmed. *)
Theorem X5_reasoning_to_the_end :
  forall (subprocess_run : list str -> str) (video_path : str) (i : nat),
    let output := subprocess_run (inference_cmd video_path) in
    find (L "Reasoning:") output = Some i ->
    str_in (L "--------------------") (skipn (i + 10) output) = false ->
    reasoning_of (evaluate_video subprocess_run video_path)
    = strip (skipn (i + 10) output).
Proof.
  intros run video_path i output Hf Hs.
  unfold evaluate_video. fold output.
  rewrite reasoning_of_interpret, Hf. cbv zeta.
  set (u := skipn (i + 10) output) in *.
  rewrite <- (strip_drop_while u).
  set (r := drop_while Char.is_space u).
  destruct (block_end_found r 0) as [_ [Hle [Hend _]]].
  set (j := block_length r) in *.
  unfold ends_block, separator_follows, separator in Hend.
  assert (Hsep : starts_with (L "--------------------") (skipn j r) = false).
  { unfold r. rewrite <- skipn_take_while, skipn_skipn.
    now apply str_in_false_skipn. }
  rewrite Hsep in Hend. cbn [andb orb] in Hend.
  rewrite <- (firstn_skipn j r) at 2.
  destruct (skipn j r) as [|c [|c2 t]]; cbn [is_eos] in Hend;
    try discriminate.
  - now rewrite app_nil_r.
  - apply Ascii.eqb_eq in Hend. subst c. symmetry.
    now apply strip_app_space.
Qed.

Lemma X5_reasoning_to_the_end_witness :
  reasoning_of (evaluate_video
                  (fun _ => L "Assistant: NO" ++ Samples.nl ++
                            L "Reasoning:  the ball floats. " ++ Samples.nl)
                  (L "clip.mp4"))
  = L "the ball floats.".
Proof.
  apply (@X5_reasoning_to_the_end
           (fun _ => L "Assistant: NO" ++ Samples.nl ++
                     L "Reasoning:  the ball floats. " ++ Samples.nl)
           (L "clip.mp4") 14); reflexivity.
Defined.

(** X6: in a transcript of the usual shape, a "Reasoning:" label, a
    body, the separator line and the "Assistant:" marker, the recorded
    reasoning is the body, trimmed.  The label is the first one of the
    transcript and the separator the first one after the label. *)
Theorem X6_reasoning_before_separator :
  forall (subprocess_run : list str -> str) (video_path : str)
         (pre body ws post : str),
    let output := subprocess_run (inference_cmd video_path) in
    let tail := L "--------------------" ++ ws ++ L "Assistant:" ++ post in
    output = pre ++ L "Reasoning:" ++ body ++ tail ->
    find (L "Reasoning:") output = Some (length pre) ->
    find (L "--------------------") (body ++ tail) = Some (length body) ->
    forallb Char.is_space ws = true ->
    reasoning_of (evaluate_video subprocess_run video_path) = strip body.
Proof.
  intros run video_path pre body ws post output tail Ho Hf Hs Hws.
  unfold evaluate_video. fold output.
  rewrite reasoning_of_interpret, Hf. cbv zeta.
  assert (Hu : skipn (length pre + 10) output = body ++ tail).
  { rewrite Ho, Nat.add_comm, <- skipn_skipn, skipn_app_exact.
    change 10 with (length (L "Reasoning:")). apply skipn_app_exact. }
  rewrite Hu.
  assert (Hr : drop_while Char.is_space (body ++ tail)
               = drop_while Char.is_space body ++ tail).
  { apply drop_while_app_stop. reflexivity. }
  rewrite Hr. rewrite <- (strip_drop_while body).
  set (b := drop_while Char.is_space body).
  destruct (block_end_found (b ++ tail) 0) as [_ [_ [Hend Hbefore]]].
  set (j := block_length (b ++ tail)) in *.
  assert (Hat : ends_block (skipn (length b) (b ++ tail)) = true).
  { rewrite skipn_app_exact. unfold ends_block, separator_follows, separator.
    apply orb_true_iff. left. apply andb_true_iff. split.
    - apply starts_with_iff. now exists (ws ++ L "Assistant:" ++ post).
    - unfold tail. change 20 with (length (L "--------------------")).
      rewrite skipn_app_exact, (@drop_while_app _ _ _ Hws).
      apply starts_with_iff. now exists post. }
  assert (Hnot : forall m, m < length b ->
                           ends_block (skipn m (b ++ tail)) = false).
  { intros m Hm. unfold ends_block, separator_follows, separator.
    apply orb_false_iff. split.
    - apply andb_false_iff. left.
      unfold find in Hs. rewrite find_from_scan in Hs.
      apply first_success_some in Hs as [n [_ [Hn Hlt]]].
      unfold guard in Hn, Hlt.
      destruct (starts_with _ (skipn n (body ++ tail))); [|discriminate].
      injection Hn as Hn. cbn [Nat.add] in Hn. subst n.
      pose proof (take_drop_while Char.is_space body) as Hb. fold b in Hb.
      assert (Hlen : length body
                     = length (take_while Char.is_space body) + length b).
      { rewrite Hb at 1. apply length_app. }
      specialize (Hlt (length (take_while Char.is_space body) + m)
                      ltac:(lia)).
      cbn [Nat.add] in Hlt.
      replace (skipn m (b ++ tail))
        with (skipn (length (take_while Char.is_space body) + m)
                    (body ++ tail)).
      + now destruct (starts_with _ _).
      + rewrite Nat.add_comm, <- skipn_skipn. f_equal.
        replace (body ++ tail)
          with (take_while Char.is_space body ++ (b ++ tail))
          by (rewrite app_assoc, <- Hb; reflexivity).
        apply skipn_app_exact.
    - destruct (is_eos (skipn m (b ++ tail))) eqn:E; [|reflexivity].
      apply is_eos_short in E. rewrite length_skipn, length_app in E.
      unfold tail in E. rewrite length_app in E.
      change (length (L "--------------------")) with 20 in E. lia. }
  assert (Hj : j = length b).
  { destruct (Nat.lt_trichotomy j (length b)) as [Hlt | [Heq | Hgt]].
    - rewrite (Hnot j Hlt) in Hend. discriminate.
    - exact Heq.
    - rewrite (Hbefore _ Hgt) in Hat. discriminate. }
  rewrite Hj. now rewrite firstn_app, firstn_all, Nat.sub_diag, app_nil_r.
Qed.

Lemma X6_reasoning_before_separator_witness :
  reasoning_of (evaluate_video
                  (fun _ => L "User: q" ++ Samples.nl ++
                            L "Reasoning: it falls - as it should." ++ Samples.nl ++
                            L "--------------------" ++ Samples.nl ++
                            L "Assistant: Yes.")
                  (L "clip.mp4"))
  = L "it falls - as it should.".
Proof.
  apply (@X6_reasoning_before_separator
           (fun _ => L "User: q" ++ Samples.nl ++
                     L "Reasoning: it falls - as it should." ++ Samples.nl ++
                     L "--------------------" ++ Samples.nl ++
                     L "Assistant: Yes.")
           (L "clip.mp4")
           (L "User: q" ++ Samples.nl)
           (L " it falls - as it should." ++ Samples.nl)
           Samples.nl (L " Yes.")); reflexivity.
Defined.

End ReasoningText.


(* ===================================================================== *)
(** * The single-shot client, step by step *)
(* ===================================================================== *)

Section ClientRun.
Import Spec Extra CosmosClient IO.

(** What [display_result] prints. *)
Lemma display_result_message (content : str) (show_reasoning : bool) :
    display_result content show_reasoning =
      (tt,
       [Print
          match first_section (L "<think>") (L "</think>") content,
                first_section (L "<answer>") (L "</answer>") content with
          | Some t, Some a =>
              if show_reasoning
              then ShowReasoningAndAnswer (strip t) (strip a)
              else ShowResult (strip a)
          | _, _ => ShowResult (strip content)
          end]).
Proof.
  unfold display_result.
  rewrite parse_reasoning_first_sections.
  destruct (first_section (L "<think>") _ content) as [t|];
    [destruct (first_section (L "<answer>") _ content) as [a|]|];
    destruct show_reasoning; reflexivity.
Qed.

(** X7: [display_result] prints one block: the reasoning and the answer
    when the reply has both sections and the reasoning is to be shown,
    the answer section alone when it is hidden, and the whole reply,
    trimmed, when a section is missing. *)
Theorem X7_display_result_prints :
  forall (content : str) (show_reasoning : bool),
    display_result content show_reasoning =
      (tt,
       [Print
          match first_section (L "<think>") (L "</think>") content,
                first_section (L "<answer>") (L "</answer>") content with
          | Some t, Some a =>
              if show_reasoning
              then ShowReasoningAndAnswer (strip t) (strip a)
              else ShowResult (strip a)
          | _, _ => ShowResult (strip content)
          end]).
Proof.
  intros content show. unfold display_result.
  rewrite parse_reasoning_first_sections.
  destruct (first_section (L "<think>") _ content) as [t|];
    [destruct (first_section (L "<answer>") _ content) as [a|]|];
    destruct show; reflexivity.
Qed.

(** Run the code under every answer of the environment. *)
Ltac step_through :=
  repeat first
    [ progress cbn [fst snd andb orb negb app filter length
                    is_post is_get]
    | match goal with
      | |- context [display_result ?c ?s] =>
          rewrite (display_result_message c s)
      end
    | match goal with
      | |- context [match ?x with _ => _ end] =>
          lazymatch x with
          | context [match _ with _ => _ end] => fail
          | _ => destruct x eqn:?
          end
      end ].

Ltac split_log H :=
  cbn [In app fst snd] in H;
  repeat match type of H with
         | _ \/ _ => destruct H as [H|H]
         | False => destruct H
         end;
  try discriminate H.

(** X8: [process_file] sends at most one request.  It sends one exactly
    when the file exists, has a video or image extension, can be read
    and, if a prompt file is named, that file loads with a system prompt
    that is not null; the request goes to the chat-completions URL, and
    no other call is made. *)
Theorem X8_one_request_when_ready :
  forall (w : env) (file_path : str) (prompt yaml_file : option str)
         (show_reasoning : bool),
    let r := process_file w file_path prompt yaml_file show_reasoning in
    length (filter is_post (log r))
    = (if ready w file_path yaml_file then 1 else 0) /\
    filter is_get (log r) = [] /\
    (forall url req, In (Post url req) (log r) -> url = API_URL) /\
    (value r <> None -> ready w file_path yaml_file = true).
Proof.
  intros w file_path prompt yaml_file show. cbv zeta.
  unfold process_file, encode_and_send, send_request, load_yaml_prompt,
    ready, prompts_ready, ext_of.
  unfold value, log, bind, emit, ret.
  destruct (path_exists w file_path); cbn [negb andb].
  - step_through;
      (split; [reflexivity|]); (split; [reflexivity|]);
      (split;
       [ intros url req Hin; split_log Hin; congruence
       | intros Hv; first [reflexivity | exfalso; apply Hv; reflexivity] ]).
  - cbn [fst snd filter is_post is_get length].
    split; [reflexivity|]. split; [reflexivity|]. split.
    + intros url req [Hin|[]]. discriminate.
    + intros Hv. exfalso. apply Hv. reflexivity.
Qed.

(** Every image extension has its own entry in the MIME table. *)
Lemma mime_known (ext : str) :
  mem ext IMAGE_EXTENSIONS = true ->
  In (ext, mime_get mime_map ext (L "image/jpeg")) mime_map.
Proof.
  intros H. apply mem_In in H. cbn [In IMAGE_EXTENSIONS] in H.
  destruct H as [<- | [<- | [<- | [<- | [<- | []]]]]];
    vm_compute; tauto.
Qed.

(** X9: every request that [process_file] sends names the model
    nvidia/Cosmos-Reason2-2B with 4096 tokens at most and temperature
    0.7, and carries the bytes of the file in base 64: as a [video_url]
    declared video/mp4 whatever the video extension, or as an
    [image_url] declared with the MIME type that the table gives for the
    extension. *)
Theorem X9_request_payload :
  forall (w : env) (file_path : str) (prompt yaml_file : option str)
         (show_reasoning : bool) (url : str) (req : request),
    In (Post url req)
       (log (process_file w file_path prompt yaml_file show_reasoning)) ->
    model req = L "nvidia/Cosmos-Reason2-2B" /\
    max_tokens req = 4096%Z /\
    temperature req = (7 # 10)%Q /\
    exists data,
      read_bytes w file_path = Some data /\
      ((mem (ext_of w file_path) VIDEO_EXTENSIONS = true /\
        content_type req = L "video_url" /\
        content_url req = L "data:video/mp4;base64," ++ b64encode w data)
       \/
       (mem (ext_of w file_path) VIDEO_EXTENSIONS = false /\
        content_type req = L "image_url" /\
        exists mime,
          In (ext_of w file_path, mime) mime_map /\
          content_url req = L "data:" ++ mime ++ L ";base64," ++ b64encode w data)).
Proof.
  intros w file_path prompt yaml_file show url req.
  unfold process_file, encode_and_send, send_request, load_yaml_prompt,
    ext_of.
  unfold value, log, bind, emit, ret.
  destruct (path_exists w file_path); cbn [negb].
  - step_through; intros Hin; split_log Hin;
      injection Hin as <- <-;
      cbn [model max_tokens temperature content_type content_url];
      (split; [reflexivity|]); (split; [reflexivity|]);
      (split; [reflexivity|]);
      eexists; (split; [reflexivity|]);
      first
        [ left; repeat split; reflexivity
        | right; (split; [reflexivity|]); (split; [reflexivity|]);
          eexists; split; [apply mime_known; assumption | reflexivity] ].
  - cbn [fst snd]. intros [Hin|[]]. discriminate.
Qed.

(** A video in an AVI container is declared video/mp4. *)
Lemma X9_request_payload_witness :
  let req :=
    Request (L "nvidia/Cosmos-Reason2-2B")
            (L "You are a helpful assistant that analyzes images and videos.")
            (L "video_url") (L "data:video/mp4;base64,YWJj")
            (Some (L "Caption this video in detail.")) 4096 (7 # 10) in
  In (Post API_URL req)
     (log (process_file Samples.answering (L "clip.AVI") None None true)) /\
  exists data,
    read_bytes Samples.answering (L "clip.AVI") = Some data /\
    content_url req
    = L "data:video/mp4;base64," ++ b64encode Samples.answering data.
Proof.
  cbv zeta.
  assert (Hin : In (Post API_URL
                      (Request (L "nvidia/Cosmos-Reason2-2B")
                         (L "You are a helpful assistant that analyzes images and videos.")
                         (L "video_url") (L "data:video/mp4;base64,YWJj")
                         (Some (L "Caption this video in detail.")) 4096 (7 # 10)))
                   (log (process_file Samples.answering (L "clip.AVI")
                                      None None true))).
  { vm_compute. do 5 right. left. reflexivity. }
  split; [exact Hin|].
  destruct (@X9_request_payload Samples.answering (L "clip.AVI") None None
              true _ _ Hin) as [_ [_ [_ [data [Hd [[_ [_ Hu]] | [Hv _]]]]]]].
  - exists data. split; [exact Hd | exact Hu].
  - vm_compute in Hv. discriminate.
Defined.

(** X10: the prompts of a request.  With a prompt file both prompts
    come from the file, whatever prompt was passed: the system prompt is
    the one bound in the file, the user prompt the one bound there or the
    empty text.  Without one the system prompt is the fixed one and the
    user prompt is the prompt passed or, when it is missing or empty,
    the default for the kind of file. *)
Theorem X10_request_prompts :
  forall (w : env) (file_path : str) (prompt yaml_file : option str)
         (show_reasoning : bool) (url : str) (req : request),
    In (Post url req)
       (log (process_file w file_path prompt yaml_file show_reasoning)) ->
    match yaml_file with
    | Some (c :: f) =>
        exists data,
          yaml_safe_load w (c :: f) = Some data /\
          dict_get data (L "system_prompt")
                   (Some (L "You are a helpful assistant."))
          = Some (system_prompt req) /\
          user_prompt req = dict_get data (L "user_prompt") (Some [])
    | _ =>
        system_prompt req
        = L "You are a helpful assistant that analyzes images and videos." /\
        user_prompt req
        = Some match prompt with
               | Some (c :: p) => c :: p
               | _ =>
                   if mem (ext_of w file_path) VIDEO_EXTENSIONS
                   then L "Caption this video in detail."
                   else L "Describe this image in detail."
               end
    end.
Proof.
  intros w file_path prompt yaml_file show url req.
  unfold process_file, encode_and_send, send_request, load_yaml_prompt,
    ext_of.
  unfold value, log, bind, emit, ret.
  destruct (path_exists w file_path); cbn [negb].
  - step_through; intros Hin; split_log Hin;
      injection Hin as <- <-;
      cbn [system_prompt user_prompt];
      first [ split; reflexivity
            | eexists; split; [reflexivity|];
              split; [eassumption | reflexivity] ].
  - cbn [fst snd]. intros [Hin|[]]. discriminate.
Qed.

(** A prompt file with a user prompt only: the system prompt is the
    default of the file loader and the prompt passed is not used. *)
Lemma X10_request_prompts_witness :
  let req :=
    Request (L "nvidia/Cosmos-Reason2-2B")
            (L "You are a helpful assistant.")
            (L "image_url") (L "data:image/png;base64,YWJj")
            (Some (L "Count the cars.")) 4096 (7 # 10) in
  In (Post API_URL req)
     (log (process_file user_prompt_only (L "road.png")
                        (Some (L "ignored")) (Some (L "p.yaml")) true)) /\
  exists data,
    yaml_safe_load user_prompt_only (L "p.yaml") = Some data /\
    user_prompt req = dict_get data (L "user_prompt") (Some []).
Proof.
  cbv zeta.
  assert (Hin : In (Post API_URL
                      (Request (L "nvidia/Cosmos-Reason2-2B")
                         (L "You are a helpful assistant.")
                         (L "image_url") (L "data:image/png;base64,YWJj")
                         (Some (L "Count the cars.")) 4096 (7 # 10)))
                   (log (process_file user_prompt_only (L "road.png")
                           (Some (L "ignored")) (Some (L "p.yaml")) true))).
  { vm_compute. do 6 right. left. reflexivity. }
  split; [exact Hin|].
  destruct (@X10_request_prompts user_prompt_only (L "road.png")
              (Some (L "ignored")) (Some (L "p.yaml")) true _ _ Hin)
    as [data [Hd [_ Hu]]].
  exists data. split; [exact Hd | exact Hu].
Defined.

Lemma process_file_hidden (w : env) (file_path : str)
      (prompt yaml_file : option str) :
    process_file w file_path prompt yaml_file false =
      (value (process_file w file_path prompt yaml_file true),
       map hide_reasoning
           (log (process_file w file_path prompt yaml_file true))).
Proof.
  unfold process_file, encode_and_send, send_request, load_yaml_prompt.
  unfold value, log, bind, emit, ret.
  destruct (path_exists w file_path); cbn [negb]; [|reflexivity].
  step_through; reflexivity.
Qed.

(** X11: hiding the reasoning changes what is shown and nothing else:
    the run with [show_reasoning] unset returns the same content and has
    the same log as the run with it set, except that a reply shown with
    its reasoning is shown as its answer alone. *)
Theorem X11_hiding_changes_display_only :
  forall (w : env) (file_path : str) (prompt yaml_file : option str),
    process_file w file_path prompt yaml_file false =
      (value (process_file w file_path prompt yaml_file true),
       map hide_reasoning
           (log (process_file w file_path prompt yaml_file true))).
Proof.
  intros w file_path prompt yaml_file.
  unfold process_file, encode_and_send, send_request, load_yaml_prompt.
  unfold value, log, bind, emit, ret.
  destruct (path_exists w file_path); cbn [negb]; [|reflexivity].
  step_through; reflexivity.
Qed.

Lemma dict_get_absent (d : yaml) (k : str) (default : option str) :
  ~ has_key d k -> dict_get d k default = default.
Proof.
  induction d as [|[k0 v0] d IH]; intros H; [reflexivity|].
  cbn [dict_get]. destruct (str_eqb k0 k) eqn:E.
  - apply str_eqb_eq in E. subst k0. exfalso. apply H.
    exists v0. now left.
  - apply IH. intros [v Hv]. apply H. exists v. now right.
Qed.

Lemma dict_get_null (d : yaml) (k : str) (default : option str) :
  has_key d k -> (forall v, In (k, v) d -> v = None) ->
  dict_get d k default = None.
Proof.
  induction d as [|[k0 v0] d IH]; intros [v Hv] Hnull; [destruct Hv|].
  cbn [dict_get]. destruct (str_eqb k0 k) eqn:E.
  - apply str_eqb_eq in E. subst k0. apply Hnull. now left.
  - apply IH.
    + destruct Hv as [Hv|Hv]; [|now exists v].
      injection Hv as -> _. now rewrite str_eqb_refl in E.
    + intros v' Hv'. apply Hnull. now right.
Qed.

(** X12: a prompt file that loads and leaves out a prompt gets the
    default for it: "You are a helpful assistant." for the system prompt,
    the empty text for the user prompt; nothing is printed. *)
Theorem X12_prompt_file_defaults :
  forall (w : env) (yaml_path : str) (data : yaml),
    yaml_safe_load w yaml_path = Some data ->
    log (load_yaml_prompt w yaml_path) = [] /\
    (~ has_key data (L "system_prompt") ->
     fst (value (load_yaml_prompt w yaml_path))
     = Some (L "You are a helpful assistant.")) /\
    (~ has_key data (L "user_prompt") ->
     snd (value (load_yaml_prompt w yaml_path)) = Some []).
Proof.
  intros w yaml_path data H. unfold load_yaml_prompt. rewrite H.
  unfold value, log, ret. cbn [fst snd].
  repeat split; intros Hk; now apply dict_get_absent.
Qed.

Lemma X12_prompt_file_defaults_witness :
  value (load_yaml_prompt user_prompt_only (L "p.yaml"))
  = (Some (L "You are a helpful assistant."), Some (L "Count the cars.")).
Proof.
  destruct (@X12_prompt_file_defaults user_prompt_only (L "p.yaml") _ eq_refl)
    as [_ [Hs _]].
  assert (Hk : ~ has_key [(L "user_prompt", Some (L "Count the cars."))]
                 (L "system_prompt")).
  { intros [v [Hv|[]]]. discriminate. }
  specialize (Hs Hk).
  destruct (value (load_yaml_prompt user_prompt_only (L "p.yaml")))
    as [sp up] eqn:E.
  cbn [fst] in Hs. subst sp. f_equal.
  vm_compute in E. now injection E as <-.
Defined.

(** X13: a prompt file that binds the system prompt to null stops
    [process_file] without a word: nothing is returned, no request is
    sent and no error is reported. *)
Theorem X13_null_system_prompt_is_silent :
  forall (w : env) (file_path : str) (prompt : option str)
         (c : ascii) (f : str) (show_reasoning : bool) (data : yaml),
    ready w file_path None = true ->
    yaml_safe_load w (c :: f) = Some data ->
    has_key data (L "system_prompt") ->
    (forall v, In (L "system_prompt", v) data -> v = None) ->
    let r := process_file w file_path prompt (Some (c :: f)) show_reasoning in
    value r = None /\
    filter is_post (log r) = [] /\
    (forall m, In (Print m) (log r) -> is_failure m = false).
Proof.
  intros w file_path prompt c f show data Hready Hload Hkey Hnull.
  pose proof (dict_get_null (Some (L "You are a helpful assistant."))
                Hkey Hnull) as Hget.
  cbv zeta.
  unfold ready, prompts_ready, ext_of in Hready.
  unfold process_file, encode_and_send, send_request, load_yaml_prompt.
  unfold value, log, bind, emit, ret.
  rewrite Hload. cbn [fst snd]. rewrite Hget.
  destruct (path_exists w file_path); [|discriminate].
  destruct (read_bytes w file_path); [|now rewrite andb_false_r in Hready].
  cbn [negb].
  destruct (mem _ VIDEO_EXTENSIONS);
    [|destruct (mem _ IMAGE_EXTENSIONS); [|discriminate]];
    cbn [fst snd app filter is_post];
    (repeat split; intros m Hin; split_log Hin;
     injection Hin as <-; reflexivity).
Qed.

Lemma X13_null_system_prompt_is_silent_witness :
  process_file null_prompt (L "clip.mp4") None (Some (L "p.yaml")) true
  = (None, [Print (ProcessingVideo (L "clip.mp4")); Print Encoding;
            Print (FileSize 3); Print (LoadingPrompt (L "p.yaml"))]) /\
  value (process_file null_prompt (L "clip.mp4") None (Some (L "p.yaml")) true)
  = None.
Proof.
  split; [reflexivity|].
  apply (@X13_null_system_prompt_is_silent null_prompt (L "clip.mp4") None
           "p"%char (L ".yaml") true [(L "system_prompt", None)]).
  - reflexivity.
  - reflexivity.
  - exists None. now left.
  - intros v [Hv|[]]. now injection Hv as <-.
Defined.

(** *** The command line *)

Lemma mem_false (x : str) (xs : list str) : ~ In x xs -> mem x xs = false.
Proof.
  intros H. destruct (mem x xs) eqn:E; [|reflexivity].
  apply mem_In in E. contradiction.
Qed.

Lemma not_command (x : str) :
  ~ In x command_words ->
  mem x [L "-h"; L "--help"; L "help"] = false /\
  mem x [L "test"; L "--test"] = false.
Proof.
  intros H. split; apply mem_false; intros Hin; apply H;
    unfold command_words; cbn [In] in *; tauto.
Qed.



Lemma index_app_last (x : str) (xs : list str) :
  ~ In x xs -> index x (xs ++ [x]) = length xs.
Proof.
  induction xs as [|a xs IH]; intros H; cbn [app index length].
  - now rewrite str_eqb_refl.
  - destruct (str_eqb a x) eqn:E.
    + apply str_eqb_eq in E. subst a. exfalso. apply H. now left.
    + f_equal. apply IH. intros Hin. apply H. now right.
Qed.

Lemma mem_app_last (x : str) (xs : list str) : mem x (xs ++ [x]) = true.
Proof. apply mem_In, in_or_app. right. now left. Qed.

(** X15: a command line that ends with [--prompt-file] and names no
    file for it is refused: the status is 1, the error is printed and
    no file is touched. *)
Theorem X15_prompt_file_needs_a_path :
  forall (w : env) (prog : str) (pre : list str),
    (forall x, In x pre ->
               x <> L "--prompt-file" /\ ~ In x command_words) ->
    main w (prog :: pre ++ [L "--prompt-file"]) = (1%Z, [Print ErrPromptFileArg]).
Proof.
  intros w prog pre H.
  set (keep := fun arg : str => negb (str_eqb arg (L "--no-reasoning"))).
  assert (Hnot : ~ In (L "--prompt-file") (filter keep pre)).
  { intros Hin. apply filter_In in Hin as [Hin _].
    now destruct (H _ Hin) as [Hx _]. }
  assert (Hargs : filter keep (pre ++ [L "--prompt-file"])
                  = filter keep pre ++ [L "--prompt-file"]).
  { now rewrite filter_app. }
  assert (Hend :
    (if mem (L "--prompt-file") (filter keep (pre ++ [L "--prompt-file"]))
     then
       let idx := index (L "--prompt-file")
                        (filter keep (pre ++ [L "--prompt-file"])) in
       if Nat.ltb (idx + 1)
                  (length (filter keep (pre ++ [L "--prompt-file"])))
       then
         run_file w
                  (firstn idx (filter keep (pre ++ [L "--prompt-file"])) ++
                   skipn (idx + 2) (filter keep (pre ++ [L "--prompt-file"])))
                  (Some (nth (idx + 1)
                             (filter keep (pre ++ [L "--prompt-file"])) []))
                  (negb (mem (L "--no-reasoning")
                             (prog :: pre ++ [L "--prompt-file"])))
       else bind (emit (Print ErrPromptFileArg)) (fun _ => ret 1%Z)
     else run_file w (filter keep (pre ++ [L "--prompt-file"])) None
                   (negb (mem (L "--no-reasoning")
                              (prog :: pre ++ [L "--prompt-file"]))))
    = (1%Z, [Print ErrPromptFileArg])).
  { rewrite Hargs, mem_app_last. cbv zeta.
    rewrite (@index_app_last _ _ Hnot), length_app. cbn [length].
    now rewrite Nat.ltb_irrefl. }
  unfold main. destruct pre as [|x pre'].
  - exact Hend.
  - cbn [app]. destruct (H x (or_introl eq_refl)) as [_ Hx].
    apply not_command in Hx as [-> ->]. exact Hend.
Qed.

Lemma X15_prompt_file_needs_a_path_witness :
  main Samples.answering
       [L "cosmos_client.py"; L "clip.mp4"; L "--prompt-file"]
  = (1%Z, [Print ErrPromptFileArg]).
Proof.
  apply (@X15_prompt_file_needs_a_path Samples.answering
           (L "cosmos_client.py") [L "clip.mp4"]).
  intros x [<- | []]. split; [discriminate|].
  unfold command_words. cbn [In]. intuition discriminate.
Defined.

Lemma run_file_hidden (w : env) (args : list str) (yaml_file : option str) :
  run_file w args yaml_file false =
    (value (run_file w args yaml_file true),
     map hide_reasoning (log (run_file w args yaml_file true))).
Proof.
  unfold run_file. destruct args as [|file_path rest]; [reflexivity|].
  set (prompt := if (_ && _)%bool then _ else _).
  rewrite (process_file_hidden w file_path prompt yaml_file).
  destruct (process_file w file_path prompt yaml_file true) as [[c|] lg];
    unfold value, log, bind, ret; cbn [fst snd];
    now rewrite !app_nil_r.
Qed.

Lemma filter_keeps_all (flag : str) (l : list str) :
  ~ In flag l -> filter (fun arg => negb (str_eqb arg flag)) l = l.
Proof.
  induction l as [|a l IH]; intros H; [reflexivity|].
  cbn [filter]. destruct (str_eqb a flag) eqn:E.
  - apply str_eqb_eq in E. subst a. exfalso. apply H. now left.
  - cbn [negb]. f_equal. apply IH. intros Hin. apply H. now right.
Qed.

Lemma filter_drops_flag (flag : str) (l1 l2 : list str) :
  ~ In flag (l1 ++ l2) ->
  filter (fun arg => negb (str_eqb arg flag)) (l1 ++ flag :: l2) = l1 ++ l2.
Proof.
  intros H. rewrite filter_app. cbn [filter]. rewrite str_eqb_refl.
  cbn [negb]. rewrite <- filter_app. now apply filter_keeps_all.
Qed.

(** X16: [--no-reasoning], wherever it stands after the file, changes
    the display and nothing else: the run has the status and the log of
    the run without the flag, except that a reply shown with its
    reasoning is shown as its answer alone. *)
Theorem X16_no_reasoning_flag :
  forall (w : env) (prog x : str) (xs ys : list str),
    ~ In x command_words ->
    ~ In (L "--no-reasoning") (prog :: x :: xs ++ ys) ->
    main w (prog :: x :: xs ++ L "--no-reasoning" :: ys) =
      (value (main w (prog :: x :: xs ++ ys)),
       map hide_reasoning (log (main w (prog :: x :: xs ++ ys)))).
Proof.
  intros w prog x xs ys Hx Hflag.
  apply not_command in Hx as [Hh Ht].
  unfold main. rewrite Hh, Ht. cbn [tl].
  rewrite (mem_false _ _ Hflag). cbn [negb].
  assert (Hin : mem (L "--no-reasoning")
                    (prog :: x :: xs ++ L "--no-reasoning" :: ys) = true).
  { apply mem_In. right. right. apply in_or_app. right. now left. }
  rewrite Hin. cbn [negb].
  assert (Hrest : ~ In (L "--no-reasoning") (x :: xs ++ ys)).
  { intros H. apply Hflag. now right. }
  rewrite (@filter_keeps_all _ _ Hrest).
  assert (Hargs : filter (fun arg => negb (str_eqb arg (L "--no-reasoning")))
                         (x :: xs ++ L "--no-reasoning" :: ys)
                  = x :: xs ++ ys).
  { apply (@filter_drops_flag (L "--no-reasoning") (x :: xs) ys Hrest). }
  rewrite Hargs.
  destruct (mem (L "--prompt-file") (x :: xs ++ ys)).
  - destruct (_ <? _); [apply run_file_hidden | reflexivity].
  - apply run_file_hidden.
Qed.

Lemma X16_no_reasoning_flag_witness :
  main Samples.answering
       [L "cosmos_client.py"; L "clip.mp4"; L "--no-reasoning"]
  = (0%Z,
     [Print (ProcessingVideo (L "clip.mp4")); Print Encoding;
      Print (FileSize 3); Print Sending;
      Print (ShowPrompt (Some (L "Caption this video in detail.")));
      Post API_URL
           (Request (L "nvidia/Cosmos-Reason2-2B")
              (L "You are a helpful assistant that analyzes images and videos.")
              (L "video_url") (L "data:video/mp4;base64,YWJj")
              (Some (L "Caption this video in detail.")) 4096 (7 # 10));
      Print (ShowResult (L "a"))]).
Proof.
  assert (Hx : ~ In (L "clip.mp4") command_words).
  { unfold command_words. cbn [In]. intuition discriminate. }
  assert (Hf : ~ In (L "--no-reasoning")
                 (L "cosmos_client.py" :: L "clip.mp4" :: [] ++ [])).
  { cbn [In app]. intuition discriminate. }
  pose proof (@X16_no_reasoning_flag Samples.answering (L "cosmos_client.py")
                (L "clip.mp4") [] [] Hx Hf) as H.
  cbn [app] in H. rewrite H. reflexivity.
Defined.

End ClientRun.


(* ===================================================================== *)
(** * Parsing a reply again *)
(* ===================================================================== *)

Section ParseAgain.
Import Spec Extra CosmosClient.

Lemma lstrip_decompose (s : str) :
  s = take_while Char.is_space s ++ lstrip s.
Proof. rewrite lstrip_drop_while. apply take_drop_while. Qed.

Lemma rstrip_decompose (s : str) :
  s = rstrip s ++ rev (take_while Char.is_space (rev s)).
Proof.
  unfold rstrip. rewrite <- rev_app_distr, <- lstrip_decompose.
  symmetry. apply rev_involutive.
Qed.

(** The trimmed text lies inside the text. *)
Lemma strip_decompose (s : str) :
  exists l r, s = l ++ strip s ++ r.
Proof.
  exists (take_while Char.is_space s),
    (rev (take_while Char.is_space (rev (lstrip s)))).
  unfold strip. rewrite <- rstrip_decompose. apply lstrip_decompose.
Qed.

Lemma lstrip_head (s : str) :
  match lstrip s with
  | c :: _ => Char.is_space c = false
  | [] => True
  end.
Proof. rewrite lstrip_drop_while. apply drop_while_head. Qed.

Lemma lstrip_app_keep (x : str) (h : ascii) :
  Char.is_space h = false -> exists q, lstrip (x ++ [h]) = q ++ [h].
Proof.
  intros H. induction x as [|a x IH]; simpl.
  - rewrite H. now exists [].
  - destruct (Char.is_space a); [exact IH | now exists (a :: x)].
Qed.

Lemma strip_idem (s : str) : strip (strip s) = strip s.
Proof.
  unfold strip. pose proof (lstrip_head s) as Hh.
  destruct (lstrip s) as [|h t]; [reflexivity|].
  assert (Hl : lstrip (rstrip (h :: t)) = rstrip (h :: t)).
  { unfold rstrip. cbn [rev].
    destruct (@lstrip_app_keep (rev t) h Hh) as [q ->].
    rewrite rev_app_distr. simpl. now rewrite Hh. }
  rewrite Hl. unfold rstrip. rewrite rev_involutive.
  now rewrite !lstrip_drop_while, drop_while_idem.
Qed.

(** A section of a part of a text is a section of the text. *)
Lemma has_section_inside (o c l m r : str) :
  has_section o c m -> has_section o c (l ++ m ++ r).
Proof.
  intros [pre [o' [body [c' [post [-> [Ho Hc]]]]]]].
  exists (l ++ pre), o', body, c', (post ++ r).
  repeat split; auto. now rewrite <- !app_assoc.
Qed.

Lemma first_section_strip_none (o c content : str) :
  first_section o c content = None ->
  first_section o c (strip content) = None.
Proof.
  intros H. destruct (first_section o c (strip content)) as [b|] eqn:E;
    [|reflexivity].
  exfalso.
  assert (Hs : has_section o c (strip content))
    by (apply has_section_first; eauto).
  destruct (strip_decompose content) as [l [r Hd]].
  apply (has_section_inside l r) in Hs. rewrite <- Hd in Hs.
  apply has_section_first in Hs as [b' Hb']. congruence.
Qed.

(** X17: when [parse_reasoning] finds no pair of sections, its answer is
    the trimmed reply and parsing that answer again gives it back
    unchanged, with no reasoning and the flag unset. *)
Theorem X17_fallback_answer_is_stable :
  forall (content : str) (t : option str) (a : str),
    parse_reasoning content = (t, a, false) ->
    t = None /\ a = strip content /\
    parse_reasoning a = (None, a, false).
Proof.
  intros content t a H.
  rewrite parse_reasoning_first_sections in H.
  destruct (first_section (L "<think>") (L "</think>") content)
    as [t0|] eqn:Et;
    [destruct (first_section (L "<answer>") (L "</answer>") content)
       as [a0|] eqn:Ea; [discriminate|]|];
    injection H as <- <-; (split; [reflexivity|]); (split; [reflexivity|]);
    rewrite parse_reasoning_first_sections, strip_idem.
  - rewrite (first_section_strip_none _ _ _ Ea).
    now destruct (first_section (L "<think>") _ (strip content)).
  - now rewrite (first_section_strip_none _ _ _ Et).
Qed.

Lemma X17_fallback_answer_is_stable_witness :
  parse_reasoning (L "<think>hm</think> <answer>yes")
  = (None, L "<think>hm</think> <answer>yes", false).
Proof.
  apply (@X17_fallback_answer_is_stable Samples.unclosed_reply None
           (L "<think>hm</think> <answer>yes")).
  vm_compute. reflexivity.
Defined.

End ParseAgain.


(* ===================================================================== *)
(** * Jobs that print nothing useful, and command lines without a file *)
(* ===================================================================== *)

Section Edges.
Import Spec Extra IO.

(** X18: a job whose transcript holds neither the "Assistant:" marker
    nor the "Reasoning:" label still gives its row, at its place in the
    table: the answer is UNKNOWN, the reasoning N/A and the verdict, by
    the substring test on UNKNOWN, FAIL; the other jobs are run as
    usual. *)
Theorem X18_silent_job_keeps_its_row :
  forall (w : VideoEvaluator.env) (folder : str) (out : option str)
         (verbose : bool) (df : list VideoEvaluator.record)
         (k : nat) (v : str),
    value (VideoEvaluator.batch_evaluate w folder out verbose) = Some df ->
    nth_error (VideoEvaluator.glob_mp4 w folder) k = Some v ->
    str_in (L "Assistant:")
           (VideoEvaluator.subprocess_run w (VideoEvaluator.inference_cmd v))
    = false ->
    str_in (L "Reasoning:")
           (VideoEvaluator.subprocess_run w (VideoEvaluator.inference_cmd v))
    = false ->
    length df = length (VideoEvaluator.glob_mp4 w folder) /\
    nth_error df k =
      Some (VideoEvaluator.Record_
              (VideoEvaluator.path_name w v) v
              (L "FAIL") (L "UNKNOWN") (L "N/A")
              (VideoEvaluator.now_isoformat w (S k))).
Proof.
  intros w folder out verbose df k v H Hk Ha Hr.
  apply batch_evaluate_table in H as [_ ->].
  split.
  - rewrite <- (rows_from_paths w 1 (VideoEvaluator.glob_mp4 w folder)) at 2.
    now rewrite length_map.
  - rewrite (rows_from_nth w 1 _ _ Hk). cbn [Nat.add]. f_equal.
    unfold row_of, VideoEvaluator.evaluate_video.
    destruct (verdict_without_marker _ Ha) as [-> ->].
    apply search_reasoning_none in Hr.
    unfold VideoEvaluator.interpret at 1. rewrite Hr.
    now destruct (Re.search false VideoEvaluator.assistant_re _).
Qed.

Lemma X18_silent_job_keeps_its_row_witness :
  exists df,
    value (VideoEvaluator.batch_evaluate Samples.three_videos (L "in")
                                         None false) = Some df /\
    length df = 3 /\
    nth_error df 2 =
      Some (VideoEvaluator.Record_ (L "c.mp4") (L "in/c.mp4")
              (L "FAIL") (L "UNKNOWN") (L "N/A") (L "2025-01-01T00:00:00")).
Proof.
  eexists. split; [reflexivity|].
  apply (@X18_silent_job_keeps_its_row Samples.three_videos (L "in") None
           false _ 2 (L "in/c.mp4") eq_refl); reflexivity.
Defined.

Lemma filter_only_flag (flag : str) (flags : list str) :
  Forall (eq flag) flags ->
  filter (fun arg => negb (str_eqb arg flag)) flags = [].
Proof.
  induction 1 as [|a l <- _ IH]; [reflexivity|].
  cbn [filter]. now rewrite str_eqb_refl.
Qed.

(** X19: command lines that name no file.  Without an argument the
    usage is printed and the status is 1; with a help word first the
    usage is printed and the status is 0; with nothing but
    [--no-reasoning] flags the missing file is reported with the usage
    and the status is 1.  No file is read and nothing is sent. *)
Theorem X19_command_lines_without_file :
  forall (w : CosmosClient.env),
    (forall argv, length argv < 2 ->
       CosmosClient.main w argv = (1%Z, [CosmosClient.Print CosmosClient.Usage]))
    /\
    (forall prog cmd rest, In cmd [L "-h"; L "--help"; L "help"] ->
       CosmosClient.main w (prog :: cmd :: rest)
       = (0%Z, [CosmosClient.Print CosmosClient.Usage]))
    /\
    (forall prog flags, flags <> [] -> Forall (eq (L "--no-reasoning")) flags ->
       CosmosClient.main w (prog :: flags)
       = (1%Z, [CosmosClient.Print CosmosClient.ErrNoFile;
                CosmosClient.Print CosmosClient.Usage])).
Proof.
  intros w. split; [|split].
  - intros [|a [|b argv]] H; cbn [length] in H; try lia; reflexivity.
  - intros prog cmd rest H. apply mem_In in H.
    unfold CosmosClient.main. now rewrite H.
  - intros prog flags Hne Hall.
    destruct flags as [|f flags]; [contradiction|].
    pose proof (filter_only_flag Hall) as Hf.
    inversion Hall as [|? ? <- Hall']. subst.
    unfold CosmosClient.main. cbn [tl].
    change (CosmosClient.mem (L "--no-reasoning")
              [L "-h"; L "--help"; L "help"]) with false.
    change (CosmosClient.mem (L "--no-reasoning") [L "test"; L "--test"])
      with false.
    cbv iota. rewrite Hf. reflexivity.
Qed.

Lemma X19_command_lines_without_file_witness :
  CosmosClient.main Samples.answering [L "cosmos_client.py"]
  = (1%Z, [CosmosClient.Print CosmosClient.Usage]) /\
  CosmosClient.main Samples.answering [L "cosmos_client.py"; L "help"; L "x"]
  = (0%Z, [CosmosClient.Print CosmosClient.Usage]) /\
  CosmosClient.main Samples.answering
    [L "cosmos_client.py"; L "--no-reasoning"; L "--no-reasoning"]
  = (1%Z, [CosmosClient.Print CosmosClient.ErrNoFile;
           CosmosClient.Print CosmosClient.Usage]).
Proof.
  destruct (X19_command_lines_without_file Samples.answering)
    as [H1 [H2 H3]].
  split; [|split].
  - apply H1. cbn [length]. lia.
  - apply H2. cbn [In]. tauto.
  - apply H3; [discriminate | repeat constructor].
Defined.

End Edges.
